(** * FaceDetectionModel: a shallow embedding of
      [src/models/face_detection_model.py]

    The Python class [FaceDetectionModel] is embedded as a program in a
    small state-and-exception monad.  The three external collaborators
    (the torchvision detector, the OpenCV cascade and drawing primitives,
    and [DeepFace.analyze]) are opaque: they are fields of a [Backend]
    record or of the model object, so every theorem holds for all of their
    behaviours, and every concrete example fixes one.  They read the arrays
    they are given and return a value or raise.  [__init__] is not run here:
    the attributes it sets are the fields of [FaceDetectionModel] and the
    two flags of the initial [world].  Console output is left out. *)

From Stdlib Require Import ZArith QArith String List Bool Lia.
From stdpp Require Import base gmap list strings pretty.
Import ListNotations.

Local Open Scope string_scope.
Local Open Scope list_scope.
Local Open Scope Z_scope.

(** ** Exceptions and outcomes *)

(** A raised Python exception.  [is_Exception] tells whether its class
    derives from [Exception]: an [except Exception] clause catches only
    those, a bare [except:] catches everything. *)
Record exn := Exn { is_Exception : bool; exn_name : string }.

Definition IndexError : exn := Exn true "IndexError".
Definition KeyError : exn := Exn true "KeyError".
Definition ValueError : exn := Exn true "ValueError".
Definition OverflowError : exn := Exn true "OverflowError".
Definition NameError : exn := Exn true "NameError".

Inductive result (A : Type) : Type :=
| Ok (a : A)
| Raise (e : exn).
Arguments Ok {A} a.
Arguments Raise {A} e.

(** ** The monad: state [S], outcome a value or a raised exception.
    State changes made before a raise persist, as in Python. *)

Definition M (S A : Type) : Type := S -> result A * S.

Definition ret {S A} (a : A) : M S A := fun s => (Ok a, s).

Definition bind {S A B} (m : M S A) (k : A -> M S B) : M S B :=
  fun s => match m s with
           | (Ok a, s') => k a s'
           | (Raise e, s') => (Raise e, s')
           end.

Definition lift {S A} (r : result A) : M S A := fun s => (r, s).

Definition get {S} : M S S := fun s => (Ok s, s).

Definition modify {S} (f : S -> S) : M S unit := fun s => (Ok tt, f s).

(** [try: body except <classes>: handler] *)
Definition try_except {S A} (body : M S A) (catches : exn -> bool)
    (handler : exn -> M S A) : M S A :=
  fun s => match body s with
           | (Ok a, s') => (Ok a, s')
           | (Raise e, s') => if catches e then handler e s' else (Raise e, s')
           end.

(** bare [except:] *)
Definition any_exception (e : exn) : bool := true.

(** Run a computation on the world when the state also carries a local
    variable of type [L]. *)
Definition in_world {L W A} (m : M W A) : M (L * W) A :=
  fun s => let '(r, w') := m (snd s) in (r, (fst s, w')).

(** Run a block that mutates a local object, starting from [l]; the block's
    final local object is the value. *)
Definition with_local {L W} (l : L) (m : M (L * W) unit) : M W L :=
  fun w => match m (l, w) with
           | (Ok _, (l', w')) => (Ok l', w')
           | (Raise e, (_, w')) => (Raise e, w')
           end.

Notation "'let!' x := m 'in' k" := (bind m (fun x => k))
  (at level 10, x name, m at level 200, k at level 200).
Notation "'run!' m 'in' k" := (bind m (fun _ => k))
  (at level 10, m at level 200, k at level 200).

(** ** Python and numpy values *)

(** A Python float or a 0-dimensional float tensor, by its value.  The code
    performs no float arithmetic: it only compares scores with [0.7],
    converts them with [float] (exact from float32 to float64) and truncates
    coordinates with [int], so a float is modelled exactly by the rational
    it denotes, or one of the three special values.  No float32 lies
    strictly between the float32 nearest to 0.7 and the real 0.7, so the
    tensor comparison [scores > 0.7] agrees with the comparison of values
    with 7/10. *)
Inductive pyfloat : Type :=
| Fin (q : Q)
| PosInf
| NegInf
| NaN.

(** [a > b] on floats: false as soon as one side is NaN. *)
Definition float_gt (a b : pyfloat) : bool :=
  match a, b with
  | NaN, _ | _, NaN => false
  | PosInf, PosInf => false
  | PosInf, _ => true
  | _, PosInf => false
  | NegInf, _ => false
  | Fin _, NegInf => true
  | Fin x, Fin y => negb (Qle_bool x y)
  end.

Definition threshold : pyfloat := Fin (7 # 10).

(** One coordinate of a box: an integer (cascade path, numpy integers) or a
    float (learned path, a row of the [boxes] tensor). *)
Inductive coord : Type :=
| CInt (z : Z)
| CFloat (f : pyfloat).

(** Truncation toward zero of a rational. *)
Definition Qtrunc (q : Q) : Z := Z.quot (Qnum q) (Z.pos (Qden q)).

(** Python's [int(c)]. *)
Definition py_int (c : coord) : result Z :=
  match c with
  | CInt z => Ok z
  | CFloat (Fin q) => Ok (Qtrunc q)
  | CFloat NaN => Raise ValueError
  | CFloat _ => Raise OverflowError
  end.

Definition box_t : Type := coord * coord * coord * coord.

(** [x1, y1, x2, y2 = map(int, box)] (line 122) *)
Definition unpack_box (b : box_t) : result (Z * Z * Z * Z) :=
  let '(c1, c2, c3, c4) := b in
  match py_int c1 with Raise e => Raise e | Ok x1 =>
  match py_int c2 with Raise e => Raise e | Ok y1 =>
  match py_int c3 with Raise e => Raise e | Ok x2 =>
  match py_int c4 with Raise e => Raise e | Ok y2 =>
    Ok (x1, y1, x2, y2)
  end end end end.

(** A numpy array of shape [(shape0, shape1, shape2)] = (rows, columns,
    channels), with its elements. *)
Record ndarray := {
  shape0 : Z;
  shape1 : Z;
  shape2 : Z;
  data : Z -> Z -> Z -> Z
}.

Definition size (a : ndarray) : Z := shape0 a * shape1 a * shape2 a.

(** Python slice bounds on an axis of length [n]: a negative index counts
    from the end, and both ends are clamped to [0, n]. *)
Definition slice_bound (n i : Z) : Z :=
  if i <? 0 then Z.max (i + n) 0 else Z.min i n.

Definition slice_len (n a b : Z) : Z :=
  Z.max 0 (slice_bound n b - slice_bound n a).

(** [image[y1:y2, x1:x2]] (line 125) *)
Definition crop (image : ndarray) (y1 y2 x1 x2 : Z) : ndarray :=
  {| shape0 := slice_len (shape0 image) y1 y2;
     shape1 := slice_len (shape1 image) x1 x2;
     shape2 := shape2 image;
     data := fun r c k =>
       data image (slice_bound (shape0 image) y1 + r)
                  (slice_bound (shape1 image) x1 + c) k |}.

(** [np.zeros((100, 100, 3), dtype=np.uint8)] (line 51) *)
Definition sample_img : ndarray :=
  {| shape0 := 100; shape1 := 100; shape2 := 3; data := fun _ _ _ => 0 |}.

(** [face_img.size == 0 or face_img.shape[0] < 20 or face_img.shape[1] < 20]
    (line 128) *)
Definition too_small (face_img : ndarray) : bool :=
  (size face_img =? 0) || (shape0 face_img <? 20) || (shape1 face_img <? 20).

(** Boolean-mask indexing [t[mask]] of a tensor along its first axis: the
    mask must have the tensor's length. *)
Fixpoint mask_index {A} (t : list A) (mask : list bool) : result (list A) :=
  match t, mask with
  | [], [] => Ok []
  | x :: t', b :: mask' =>
      match mask_index t' mask' with
      | Ok r => Ok (if b then x :: r else r)
      | Raise e => Raise e
      end
  | _, _ => Raise IndexError
  end.

(** [d[key]] on a dict entry that may be absent *)
Definition getitem {A} (entry : option A) : result A :=
  match entry with
  | Some v => Ok v
  | None => Raise KeyError
  end.

(** ** External collaborators *)

(** The output dict of the learned detector, [prediction[0]]. *)
Record Prediction := {
  boxes : list box_t;
  labels : list Z;
  scores : list pyfloat
}.

(** One rectangle [(x, y, w, h)] of [detectMultiScale]. *)
Definition rect : Type := Z * Z * Z * Z.

Inductive action : Type := act_emotion | act_age | act_gender.

(** One record of [DeepFace.analyze]'s answer; [None] is an absent key. *)
Record analysis := {
  a_dominant_emotion : option string;
  a_age : option Z;
  a_dominant_gender : option string
}.

Definition loc : Type := nat.

Definition point : Type := Z * Z.
Definition colour : Type := Z * Z * Z.

(** Calls of the drawing backend. *)
Inductive draw_op : Type :=
| Rectangle (pt1 pt2 : point) (color : colour) (thickness : Z)
| PutText (text : string) (org : point) (fontScale : Q) (color : colour)
    (thickness : Z).

(** The calls made to the external collaborators that matter here, in
    order. *)
Inductive event : Type :=
| EAnalyze (img : ndarray) (actions : list action)
| EDraw (target : loc) (op : draw_op).

(** The module-level environment.  [analyze] is
    [DeepFace.analyze(img, actions=..., enforce_detection=False, silent=True)];
    it sees the earlier calls, so it may answer differently from one call to
    the next.  [cvtColor] is [cv2.cvtColor(_, cv2.COLOR_BGR2GRAY)],
    [getTextSize] is [cv2.getTextSize(_, FONT_HERSHEY_SIMPLEX, 0.5, 1)[0]].
    A drawing call ([cv2.rectangle], [cv2.putText]) on a buffer either
    raises, and [draw_raises] gives the exception (OpenCV raises [cv2.error]
    on a coordinate that does not fit a C int), or draws, and [render] is
    its pixel-level effect. *)
Record Backend := {
  DEEPFACE_AVAILABLE : bool;
  analyze : list event -> ndarray -> list action -> result (list analysis);
  cvtColor : ndarray -> result ndarray;
  getTextSize : string -> Z * Z;
  draw_raises : draw_op -> ndarray -> option exn;
  render : draw_op -> ndarray -> ndarray
}.

(** The attributes of [self] that [__init__] sets and nothing changes
    afterwards.  [model] is [to_tensor] followed by the detector's forward
    pass under [no_grad] (lines 98 to 102); a cascade classifier is its
    [detectMultiScale(_, 1.1, 4)]. *)
Record FaceDetectionModel := {
  face_cascade : option (ndarray -> result (list rect));
  model : ndarray -> result Prediction;
  torch_available : bool
}.

(** The mutable state: the numpy buffers, the two lazily set attributes of
    [self], and the log of external calls. *)
Record world := {
  heap : gmap loc ndarray;
  emotion_model_loaded : bool;
  age_gender_model_loaded : bool;
  trace : list event
}.

Definition set_heap (h : gmap loc ndarray) (w : world) : world :=
  {| heap := h;
     emotion_model_loaded := emotion_model_loaded w;
     age_gender_model_loaded := age_gender_model_loaded w;
     trace := trace w |}.

Definition set_emotion_model_loaded (b : bool) (w : world) : world :=
  {| heap := heap w;
     emotion_model_loaded := b;
     age_gender_model_loaded := age_gender_model_loaded w;
     trace := trace w |}.

Definition set_age_gender_model_loaded (b : bool) (w : world) : world :=
  {| heap := heap w;
     emotion_model_loaded := emotion_model_loaded w;
     age_gender_model_loaded := b;
     trace := trace w |}.

Definition log (e : event) (w : world) : world :=
  {| heap := heap w;
     emotion_model_loaded := emotion_model_loaded w;
     age_gender_model_loaded := age_gender_model_loaded w;
     trace := trace w ++ [e] |}.

(** The dict built at lines 131 to 137. *)
Record face_info := {
  box : Z * Z * Z * Z;
  confidence : pyfloat;
  emotion : option string;
  age : option Z;
  gender : option string
}.

Definition set_emotion (e : string) (fi : face_info) : face_info :=
  {| box := box fi; confidence := confidence fi;
     emotion := Some e; age := age fi; gender := gender fi |}.

Definition set_age (a : Z) (fi : face_info) : face_info :=
  {| box := box fi; confidence := confidence fi;
     emotion := emotion fi; age := Some a; gender := gender fi |}.

Definition set_gender (g : string) (fi : face_info) : face_info :=
  {| box := box fi; confidence := confidence fi;
     emotion := emotion fi; age := age fi; gender := Some g |}.

(** ** Buffers *)

(** Reading the array a name refers to. *)
Definition read (l : loc) : M world ndarray :=
  fun w => match heap w !! l with
           | Some a => (Ok a, w)
           | None => (Raise NameError, w)
           end.

(** [a.copy()]: a new buffer with the same contents. *)
Definition np_copy (l : loc) : M world loc :=
  let! a := read l in
  let! w := get in
  let l' := fresh (dom (heap w)) in
  run! modify (set_heap (<[l' := a]> (heap w))) in
  ret l'.

(** Truthiness of the optional fields, as tested at lines 163 to 170. *)
Definition truthy_str (o : option string) : bool :=
  match o with
  | Some s => negb (String.eqb s "")
  | None => false
  end.

Definition truthy_int (o : option Z) : bool :=
  match o with
  | Some z => negb (z =? 0)
  | None => false
  end.

Definition blue : colour := (255, 0, 0).
Definition white : colour := (255, 255, 255).

(** Lines 162 to 168. *)
Definition make_label (fi : face_info) : string :=
  let label := "" in
  let label :=
    match emotion fi with
    | Some e => if truthy_str (emotion fi)
                then label +:+ "Emotion: " +:+ e +:+ " " else label
    | None => label
    end in
  let label :=
    match age fi with
    | Some a => if truthy_int (age fi)
                then label +:+ "Age: " +:+ pretty a +:+ " " else label
    | None => label
    end in
  let label :=
    match gender fi with
    | Some g => if truthy_str (gender fi)
                then label +:+ "Gender: " +:+ g else label
    | None => label
    end in
  label.

Section Pipeline.

Variable B : Backend.
Variable self : FaceDetectionModel.

(** [DeepFace.analyze(img, actions=actions, enforce_detection=False,
    silent=True)] *)
Definition DeepFace_analyze (img : ndarray) (actions : list action)
    : M world (list analysis) :=
  fun w => (analyze B (trace w) img actions, log (EAnalyze img actions) w).

(** The exception of the drawing call [op] on the buffer [img], if it
    raises.  The buffer drawn on is the one line 92 made, so it exists. *)
Definition draw_error (img : loc) (op : draw_op) (w : world) : option exn :=
  match heap w !! img with
  | Some a => draw_raises B op a
  | None => None
  end.

(** One call of the drawing backend on the buffer [img]: it raises and
    draws nothing, or it draws.  The call is logged either way. *)
Definition draw (img : loc) (op : draw_op) : M world unit :=
  fun w =>
    match draw_error img op w with
    | Some e => (Raise e, log (EDraw img op) w)
    | None =>
        (Ok tt,
         log (EDraw img op) (set_heap (alter (render B op) img (heap w)) w))
    end.

Definition cv2_rectangle (img : loc) (pt1 pt2 : point) (color : colour)
    (thickness : Z) : M world unit :=
  draw img (Rectangle pt1 pt2 color thickness).

Definition cv2_putText (img : loc) (text : string) (org : point)
    (fontScale : Q) (color : colour) (thickness : Z) : M world unit :=
  draw img (PutText text org fontScale color thickness).

(** Lines 42 to 64.  The [print] calls are not modelled. *)
Definition _ensure_models_loaded : M world unit :=
  if negb (DEEPFACE_AVAILABLE B) then ret tt
  else
    let! w := get in
    if negb (emotion_model_loaded w) || negb (age_gender_model_loaded w) then
      try_except
        (run! try_except
                (run! DeepFace_analyze sample_img [act_emotion] in
                 modify (set_emotion_model_loaded true))
                any_exception (fun _ => ret tt) in
         try_except
           (run! DeepFace_analyze sample_img [act_age; act_gender] in
            modify (set_age_gender_model_loaded true))
           any_exception (fun _ => ret tt))
        is_Exception (fun _ => ret tt)
    else ret tt.

(** Lines 66 to 78.  The rectangles lie inside the image, so the sums
    [x+w] and [y+h] are taken in [Z]. *)
Definition _detect_faces_opencv
    (cascade : ndarray -> result (list rect)) (image : loc)
    : M world (list box_t * list pyfloat) :=
  let! img := read image in
  let! gray := lift (cvtColor B img) in
  let! faces := lift (cascade gray) in
  ret (map (fun '(x, y, w, h) =>
              (CInt x, CInt y, CInt (x + w), CInt (y + h))) faces,
       map (fun _ : rect => Fin 1) faces).

(** Lines 105 and 106: the same mask, computed from the scores alone,
    selects the boxes and the scores. *)
Definition select_confident (prediction : Prediction)
    : result (list box_t * list pyfloat) :=
  let mask := map (fun s => float_gt s threshold) (scores prediction) in
  match mask_index (boxes prediction) mask with
  | Raise e => Raise e
  | Ok bs =>
      match mask_index (scores prediction) mask with
      | Raise e => Raise e
      | Ok ss => Ok (bs, ss)
      end
  end.

(** Lines 140 to 154: the [try] block, run on the dict [face_info]. *)
Definition analysis_block (face_img : ndarray) : M (face_info * world) unit :=
  try_except
    (run! (let! s := get in
           if emotion_model_loaded (snd s) then
             let! emotion_analysis :=
               in_world (DeepFace_analyze face_img [act_emotion]) in
             match emotion_analysis with
             | first :: _ =>
                 let! e := lift (getitem (a_dominant_emotion first)) in
                 modify (fun s => (set_emotion e (fst s), snd s))
             | [] => ret tt
             end
           else ret tt) in
     let! s := get in
     if age_gender_model_loaded (snd s) then
       let! age_gender_analysis :=
         in_world (DeepFace_analyze face_img [act_age; act_gender]) in
       match age_gender_analysis with
       | first :: _ =>
           let! a := lift (getitem (a_age first)) in
           run! modify (fun s => (set_age a (fst s), snd s)) in
           let! g := lift (getitem (a_dominant_gender first)) in
           modify (fun s => (set_gender g (fst s), snd s))
       | [] => ret tt
       end
     else ret tt)
    is_Exception
    (fun _ => ret tt).

(** Lines 158 to 174. *)
Definition annotate (result_img : loc) (fi : face_info) : M world unit :=
  let '(x1, y1, x2, y2) := box fi in
  run! cv2_rectangle result_img (x1, y1) (x2, y2) blue 2 in
  let label := make_label fi in
  if negb (String.eqb label "") then
    let label_size := getTextSize B label in
    run! cv2_rectangle result_img (x1, y1 - 20) (x1 + fst label_size, y1)
           blue (-1) in
    cv2_putText result_img label (x1, y1 - 5) (1 # 2) white 1
  else ret tt.

(** Lines 139 to 154: the analysis of one face, from the dict as line 131
    builds it. *)
Definition enrich (face_img : ndarray) (face_info0 : face_info)
    : M world face_info :=
  if DEEPFACE_AVAILABLE B
  then with_local face_info0 (analysis_block face_img)
  else ret face_info0.

(** [scores[i]] *)
Definition index_score (scores : list pyfloat) (i : nat) : result pyfloat :=
  match scores !! i with
  | Some s => Ok s
  | None => Raise IndexError
  end.

(** One iteration of the loop of lines 118 to 174, on the detection number
    [i]; the value is the list [face_data] after it.  [scores[i]] is a float
    on both paths, so the [isinstance] test of line 133 holds and the
    confidence is [float(scores[i])]. *)
Definition loop_body (image result_img : loc) (scores : list pyfloat)
    (i : nat) (b : box_t) (face_data : list face_info)
    : M world (list face_info) :=
  let! xyxy := lift (unpack_box b) in
  let '(x1, y1, x2, y2) := xyxy in
  let! img := read image in
  let face_img := crop img y1 y2 x1 x2 in
  if too_small face_img then ret face_data
  else
    let! score := lift (index_score scores i) in
    let face_info0 :=
      {| box := (x1, y1, x2, y2); confidence := score;
         emotion := None; age := None; gender := None |} in
    let! fi := enrich face_img face_info0 in
    let face_data := face_data ++ [fi] in
    run! annotate result_img fi in
    ret face_data.

(** [for i, box in enumerate(boxes): ...] *)
Fixpoint loop (image result_img : loc) (scores : list pyfloat) (i : nat)
    (bs : list box_t) (face_data : list face_info)
    : M world (list face_info) :=
  match bs with
  | [] => ret face_data
  | b :: bs' =>
      let! face_data' := loop_body image result_img scores i b face_data in
      loop image result_img scores (S i) bs' face_data'
  end.

(** Lines 114 to 176, once the candidate boxes and scores are known. *)
Definition enrich_and_draw (image result_img : loc)
    (bs : list box_t) (scores : list pyfloat)
    : M world (loc * list face_info) :=
  run! (if DEEPFACE_AVAILABLE B then _ensure_models_loaded else ret tt) in
  let! face_data := loop image result_img scores 0 bs [] in
  ret (result_img, face_data).

(** Lines 80 to 176.  The argument is the buffer the caller's image lives
    in; the first component of the value is the buffer of [result_img]. *)
Definition detect_faces (image : loc) : M world (loc * list face_info) :=
  let! result_img := np_copy image in
  if torch_available self then
    let! img := read image in
    let! prediction := lift (model self img) in
    let! sel := lift (select_confident prediction) in
    enrich_and_draw image result_img (fst sel) (snd sel)
  else
    match face_cascade self with
    | Some cascade =>
        let! sel := _detect_faces_opencv cascade image in
        enrich_and_draw image result_img (fst sel) (snd sel)
    | None => ret (result_img, [])
    end.

End Pipeline.

(** ** Definitions used to state the properties *)

(** The raw detections of the selected detector on [img], each box with its
    score, in the detector's order (lines 96 to 112, before the threshold
    of lines 105 and 106): the learned detector if it is available, else
    the cascade if there is one, else nothing. *)
Definition raw_detections (B : Backend) (self : FaceDetectionModel)
    (img : ndarray) : result (list (box_t * pyfloat)) :=
  if torch_available self then
    match model self img with
    | Raise e => Raise e
    | Ok p =>
        if (length (boxes p) =? length (scores p))%nat
        then Ok (zip (boxes p) (scores p))
        else Raise IndexError
    end
  else
    match face_cascade self with
    | Some cascade =>
        match cvtColor B img with
        | Raise e => Raise e
        | Ok gray =>
            match cascade gray with
            | Raise e => Raise e
            | Ok faces =>
                Ok (map (fun '(x, y, w, h) =>
                           ((CInt x, CInt y, CInt (x + w), CInt (y + h)),
                            Fin 1)) faces)
            end
        end
    | None => Ok []
    end.

(** The detections that reach the loop over faces: on the learned path
    those with a score above the threshold. *)
Definition candidates (self : FaceDetectionModel)
    (raw : list (box_t * pyfloat)) : list (box_t * pyfloat) :=
  if torch_available self
  then List.filter (fun d => float_gt (snd d) threshold) raw
  else raw.

(** Some detector is available (lines 96, 107 and 110). *)
Definition has_detector (self : FaceDetectionModel) : bool :=
  torch_available self ||
  match face_cascade self with Some _ => true | None => false end.

(** An outcome is a normal return. *)
Definition is_ok {A} (r : result A) : bool :=
  match r with Ok _ => true | Raise _ => false end.

(** The crop of [img] at an integer box is kept by the size test. *)
Definition crop_kept (img : ndarray) (b : Z * Z * Z * Z) : Prop :=
  let '(x1, y1, x2, y2) := b in
  size (crop img y1 y2 x1 x2) <> 0 /\
  20 <= shape0 (crop img y1 y2 x1 x2) /\
  20 <= shape1 (crop img y1 y2 x1 x2).

(** A detection passes the size test of line 128 on [img]. *)
Definition survives (img : ndarray) (d : box_t * pyfloat) : bool :=
  match unpack_box (fst d) with
  | Ok (x1, y1, x2, y2) => negb (too_small (crop img y1 y2 x1 x2))
  | Raise _ => false
  end.

(** A face record comes from a detection: its box is the detection's box
    with the coordinates truncated, its confidence the detection's score. *)
Definition record_of (d : box_t * pyfloat) (f : face_info) : Prop :=
  unpack_box (fst d) = Ok (box f) /\ confidence f = snd d.

(** The drawing calls of a log, in order, each with its target buffer. *)
Fixpoint drawn (t : list event) : list (loc * draw_op) :=
  match t with
  | [] => []
  | EDraw l op :: t' => (l, op) :: drawn t'
  | EAnalyze _ _ :: t' => drawn t'
  end.

(** The analysis calls of a log, in order. *)
Fixpoint analyzed (t : list event) : list (ndarray * list action) :=
  match t with
  | [] => []
  | EAnalyze img acts :: t' => (img, acts) :: analyzed t'
  | EDraw _ _ :: t' => analyzed t'
  end.

(** The label as the amended claim C9 words it: the parts of the fields
    that are present and truthy, in the order emotion, age, gender; the
    emotion part and the age part each end with one space. *)
Definition label_parts (f : face_info) : list string :=
  (if truthy_str (emotion f)
   then ["Emotion: " +:+ default "" (emotion f) +:+ " "] else []) ++
  (if truthy_int (age f)
   then ["Age: " +:+ pretty (default 0 (age f)) +:+ " "] else []) ++
  (if truthy_str (gender f)
   then ["Gender: " +:+ default "" (gender f)] else []).

Definition label_text (f : face_info) : string :=
  String.concat "" (label_parts f).

(** The label as claim C9 words it: the parts of the non-null fields,
    separated by single spaces. *)
Definition claimed_label (f : face_info) : string :=
  String.concat " "
    (match emotion f with Some e => ["Emotion: " +:+ e] | None => [] end ++
     match age f with Some a => ["Age: " +:+ pretty a] | None => [] end ++
     match gender f with Some g => ["Gender: " +:+ g] | None => [] end).

(** What is drawn for one face record: the box, and when the label is not
    empty a filled strip of height 20 on the box's top edge, as wide as the
    text, and the text in it. *)
Definition annotations (B : Backend) (f : face_info) : list draw_op :=
  let '(x1, y1, x2, y2) := box f in
  Rectangle (x1, y1) (x2, y2) blue 2 ::
  (if truthy_str (emotion f) || truthy_int (age f) || truthy_str (gender f)
   then [Rectangle (x1, y1 - 20)
           (x1 + fst (getTextSize B (label_text f)), y1) blue (-1);
         PutText (label_text f) (x1, y1 - 5) (1 # 2) white 1]
   else []).

(** The two warm-up calls of lines 53 and 59. *)
Definition warm_up_emotion : event := EAnalyze sample_img [act_emotion].
Definition warm_up_age_gender : event :=
  EAnalyze sample_img [act_age; act_gender].

(** A step that leaves the buffers and the two flags alone and logs only
    analysis calls. *)
Definition analysis_only (w w' : world) : Prop :=
  heap w' = heap w /\
  emotion_model_loaded w' = emotion_model_loaded w /\
  age_gender_model_loaded w' = age_gender_model_loaded w /\
  exists t, trace w' = trace w ++ t /\ drawn t = [].

(** The buffer of [result_img]: a new one. *)
Definition result_loc (w : world) : loc := fresh (dom (heap w)).

(** The world once line 92 has run. *)
Definition copied (img : ndarray) (w : world) : world :=
  set_heap (<[result_loc w := img]> (heap w)) w.

(** ** Concrete scenarios *)

Definition black (h w : Z) : ndarray :=
  {| shape0 := h; shape1 := w; shape2 := 3; data := fun _ _ _ => 0 |}.

(** A pipeline object right after [__init__], with the caller's image in
    buffer 0. *)
Definition start_world (img : ndarray) : world :=
  {| heap := {[ 0%nat := img ]};
     emotion_model_loaded := false;
     age_gender_model_loaded := false;
     trace := [] |}.

Definition happy_man : analysis :=
  {| a_dominant_emotion := Some "happy";
     a_age := Some 30;
     a_dominant_gender := Some "Man" |}.

Definition text_size (s : string) : Z * Z :=
  (9 * Z.of_nat (String.length s), 12).

(** The analysis service answers every call. *)
Definition B_always : Backend :=
  {| DEEPFACE_AVAILABLE := true;
     analyze := fun _ _ _ => Ok [happy_man];
     cvtColor := fun a => Ok a;
     getTextSize := text_size;
     draw_raises := fun _ _ => None;
     render := fun _ a => a |}.

(** No analysis service. *)
Definition B_none : Backend :=
  {| DEEPFACE_AVAILABLE := false;
     analyze := fun _ _ _ => Raise (Exn true "ImportError");
     cvtColor := fun a => Ok a;
     getTextSize := text_size;
     draw_raises := fun _ _ => None;
     render := fun _ a => a |}.

Definition fbox (x1 y1 x2 y2 : Q) : box_t :=
  (CFloat (Fin x1), CFloat (Fin y1), CFloat (Fin x2), CFloat (Fin y2)).

(** The learned detector finds one object, of class 18, at
    [(10, 10, 90, 90)] with score 0.95, and one of class 1 with score 0.5. *)
Definition one_face_model : FaceDetectionModel :=
  {| face_cascade := None;
     model := fun _ =>
       Ok {| boxes := [fbox 10 10 90 90; fbox 20 20 60 60];
             labels := [18; 1];
             scores := [Fin (95 # 100); Fin (1 # 2)] |};
     torch_available := true |}.

(** No learned detector; the cascade finds one face at [(10, 10)] of size
    80 by 80 and one of size 15 by 15. *)
Definition cascade_only : FaceDetectionModel :=
  {| face_cascade := Some (fun _ => Ok [(10, 10, 80, 80); (50, 50, 15, 15)]);
     model := fun _ => Raise (Exn true "AttributeError");
     torch_available := false |}.

(** Neither detector. *)
Definition no_detector : FaceDetectionModel :=
  {| face_cascade := None;
     model := fun _ => Raise (Exn true "AttributeError");
     torch_available := false |}.





(** The emotion analysis fails on a face crop; everything else works. *)
Definition B_emotion_fails : Backend :=
  {| DEEPFACE_AVAILABLE := true;
     analyze := fun _ img acts =>
       match acts with
       | [act_emotion] =>
           if shape0 img =? 100 then Ok [happy_man]
           else Raise (Exn true "ValueError")
       | _ => Ok [happy_man]
       end;
     cvtColor := fun a => Ok a;
     getTextSize := text_size;
     draw_raises := fun _ _ => None;
     render := fun _ a => a |}.

(** The age and gender models never load; the emotion model does. *)
Definition B_emotion_only : Backend :=
  {| DEEPFACE_AVAILABLE := true;
     analyze := fun _ _ acts =>
       match acts with
       | [act_emotion] => Ok [happy_man]
       | _ => Raise (Exn true "ValueError")
       end;
     cvtColor := fun a => Ok a;
     getTextSize := text_size;
     draw_raises := fun _ _ => None;
     render := fun _ a => a |}.

(** The age estimate is 0. *)
Definition B_newborn : Backend :=
  {| DEEPFACE_AVAILABLE := true;
     analyze := fun _ _ acts =>
       match acts with
       | [act_emotion] => Raise (Exn true "ValueError")
       | _ => Ok [ {| a_dominant_emotion := None;
                      a_age := Some 0;
                      a_dominant_gender := Some "Man" |} ]
       end;
     cvtColor := fun a => Ok a;
     getTextSize := text_size;
     draw_raises := fun _ _ => None;
     render := fun _ a => a |}.

(** The emotion group is ready, the age and gender group is pending. *)
Definition half_ready : world :=
  {| heap := {[ 0%nat := black 200 200 ]};
     emotion_model_loaded := true;
     age_gender_model_loaded := false;
     trace := [] |}.

(** The same detector with other class labels. *)
Definition relabel (f : list Z -> list Z) (self : FaceDetectionModel)
    : FaceDetectionModel :=
  {| face_cascade := face_cascade self;
     model := fun img =>
       match model self img with
       | Ok p => Ok {| boxes := boxes p; labels := f (labels p);
                       scores := scores p |}
       | Raise e => Raise e
       end;
     torch_available := torch_available self |}.

(** Two runs used as witnesses below. *)
Definition learned_run : result (loc * list face_info) * world :=
  detect_faces B_always one_face_model 0%nat (start_world (black 200 200)).

Definition learned_face : face_info :=
  {| box := (10, 10, 90, 90); confidence := Fin (95 # 100);
     emotion := Some "happy"; age := Some 30; gender := Some "Man" |}.

Definition cascade_run : result (loc * list face_info) * world :=
  detect_faces B_none cascade_only 0%nat (start_world (black 200 200)).

Definition cascade_face : face_info :=
  {| box := (10, 10, 90, 90); confidence := Fin 1;
     emotion := None; age := None; gender := None |}.

(** ** Construction *)

Definition AttributeError : exn := Exn true "AttributeError".

(** Reading [self.model] when line 27 did not assign it. *)
Definition unset_model : ndarray -> result Prediction :=
  fun _ => Raise AttributeError.

(** The attributes [model] and [torch_available] while lines 25 to 32
    run. *)
Record detector_attrs := {
  attr_model : option (ndarray -> result Prediction);
  attr_torch_available : bool
}.

Definition set_attr_model (m : ndarray -> result Prediction)
    (a : detector_attrs) : detector_attrs :=
  {| attr_model := Some m; attr_torch_available := attr_torch_available a |}.

Definition set_attr_torch_available (b : bool) (a : detector_attrs)
    : detector_attrs :=
  {| attr_model := attr_model a; attr_torch_available := b |}.

(** Lines 16 to 40.  [cascade_ctor] is the outcome of
    [cv2.CascadeClassifier(...)], [frcnn_ctor] the outcome of
    [fasterrcnn_resnet50_fpn(pretrained=True)] and [eval m] the outcome of
    [m.eval()].  The value is the object; its two flags are set in the
    world. *)
Definition __init__
    (cascade_ctor : result (ndarray -> result (list rect)))
    (frcnn_ctor : result (ndarray -> result Prediction))
    (eval : (ndarray -> result Prediction) -> result unit)
    : M world FaceDetectionModel :=
  let! cascade :=
    try_except
      (let! c := lift cascade_ctor in ret (Some c))
      is_Exception
      (fun _ => ret None) in
  let! attrs :=
    with_local {| attr_model := None; attr_torch_available := false |}
      (try_except
         (let! m := lift frcnn_ctor in
          run! modify (fun s => (set_attr_model m (fst s), snd s)) in
          run! lift (eval m) in
          modify (fun s => (set_attr_torch_available true (fst s), snd s)))
         is_Exception
         (fun _ =>
            modify (fun s => (set_attr_torch_available false (fst s), snd s)))) in
  run! modify (set_emotion_model_loaded false) in
  run! modify (set_age_gender_model_loaded false) in
  ret {| face_cascade := cascade;
         model := default unset_model (attr_model attrs);
         torch_available := attr_torch_available attrs |}.

(** ** More definitions used to state properties *)

(** The same object with another cascade attribute. *)
Definition with_cascade (c : option (ndarray -> result (list rect)))
    (self : FaceDetectionModel) : FaceDetectionModel :=
  {| face_cascade := c;
     model := model self;
     torch_available := torch_available self |}.

(** The same object with another learned model. *)
Definition with_model (m : ndarray -> result Prediction)
    (self : FaceDetectionModel) : FaceDetectionModel :=
  {| face_cascade := face_cascade self;
     model := m;
     torch_available := torch_available self |}.

(** The array after a sequence of drawing calls. *)
Definition paint (B : Backend) (ops : list draw_op) (a : ndarray) : ndarray :=
  fold_left (fun a op => render B op a) ops a.

(** The dict of lines 131 to 137. *)
Definition fresh_record (b : Z * Z * Z * Z) (s : pyfloat) : face_info :=
  {| box := b; confidence := s; emotion := None; age := None; gender := None |}.

(** The crop of [img] at an integer box. *)
Definition crop_box (img : ndarray) (b : Z * Z * Z * Z) : ndarray :=
  let '(x1, y1, x2, y2) := b in crop img y1 y2 x1 x2.

(** Every field of the record that is not null was read from the first
    record of an answer of the analysis service on the record's crop, age
    and gender from the same answer; a record with a gender has an age. *)
Definition sourced (B : Backend) (img : ndarray) (f : face_info) : Prop :=
  (forall e, emotion f = Some e ->
     exists t rec rest,
       analyze B t (crop_box img (box f)) [act_emotion] = Ok (rec :: rest) /\
       a_dominant_emotion rec = Some e) /\
  (forall a, age f = Some a ->
     exists t rec rest,
       analyze B t (crop_box img (box f)) [act_age; act_gender]
         = Ok (rec :: rest) /\
       a_age rec = Some a /\
       forall g, gender f = Some g -> a_dominant_gender rec = Some g) /\
  (gender f <> None -> age f <> None).

(** A field is filled only with the service available and its sub-model
    marked ready in [w0]. *)
Definition gated (B : Backend) (w0 : world) (f : face_info) : Prop :=
  (emotion f <> None ->
   DEEPFACE_AVAILABLE B = true /\ emotion_model_loaded w0 = true) /\
  (age f <> None ->
   DEEPFACE_AVAILABLE B = true /\ age_gender_model_loaded w0 = true).

(** No per-face analysis can be made from [w0]. *)
Definition quiet (B : Backend) (w0 : world) : Prop :=
  DEEPFACE_AVAILABLE B = false \/
  (emotion_model_loaded w0 = false /\ age_gender_model_loaded w0 = false).

(** What holds of the world [w] and of the records [new] appended since the
    loop started in [w0]. *)
Definition loop_facts (B : Backend) (img : ndarray) (result_img : loc)
    (w0 w : world) (new : list face_info) : Prop :=
  emotion_model_loaded w = emotion_model_loaded w0 /\
  age_gender_model_loaded w = age_gender_model_loaded w0 /\
  Forall (fun f => sourced B img f /\ gated B w0 f) new /\
  (exists calls,
     analyzed (trace w) = analyzed (trace w0) ++ calls /\
     (length calls <= 2 * length new)%nat /\
     Forall (fun c => exists f, In f new /\ fst c = crop_box img (box f))
       calls /\
     (quiet B w0 -> calls = [])) /\
  (forall l, l <> result_img -> heap w !! l = heap w0 !! l) /\
  heap w !! result_img =
    paint B (flat_map (annotations B) new) <$> heap w0 !! result_img.

(** The three enrichment fields are null. *)
Definition blank_fields (f : face_info) : Prop :=
  emotion f = None /\ age f = None /\ gender f = None.

(** The answers of the analysis service do not depend on the calls made
    before. *)
Definition history_independent (B : Backend) : Prop :=
  forall t t' a acts, analyze B t a acts = analyze B t' a acts.

(** A backend that marks the pixels it draws on, and a service that fails
    on its first call only. *)
Definition B_marking : Backend :=
  {| DEEPFACE_AVAILABLE := true;
     analyze := fun t _ _ =>
       match t with
       | [] => Raise (Exn true "ValueError")
       | _ => Ok [happy_man]
       end;
     cvtColor := fun a => Ok a;
     getTextSize := text_size;
     draw_raises := fun _ _ => None;
     render := fun _ a =>
       {| shape0 := shape0 a; shape1 := shape1 a; shape2 := shape2 a;
          data := fun r c k => data a r c k + 1 |} |}.

(** A 10 by 10 image. *)
Definition tiny_world : world := start_world (black 10 10).

(** More runs used as witnesses. *)
Definition emotion_only_run : result (loc * list face_info) * world :=
  detect_faces B_emotion_only one_face_model 0%nat
    (start_world (black 200 200)).

Definition emotion_only_face : face_info :=
  {| box := (10, 10, 90, 90); confidence := Fin (95 # 100);
     emotion := Some "happy"; age := None; gender := None |}.

Definition marking_run : result (loc * list face_info) * world :=
  detect_faces B_marking one_face_model 0%nat (start_world (black 200 200)).

Definition marking_face : face_info :=
  {| box := (10, 10, 90, 90); confidence := Fin (95 # 100);
     emotion := None; age := Some 30; gender := Some "Man" |}.


Definition tiny_run : result (loc * list face_info) * world :=
  detect_faces B_always one_face_model 0%nat tiny_world.

(** Related states give the same outcome and related states again. *)
Definition related {S A} (R : S -> S -> Prop) (m : M S A) : Prop :=
  forall sa sb, R sa sb ->
    fst (m sa) = fst (m sb) /\ R (snd (m sa)) (snd (m sb)).

(** Two worlds with the same flags. *)
Definition same_flags (wa wb : world) : Prop :=
  emotion_model_loaded wa = emotion_model_loaded wb /\
  age_gender_model_loaded wa = age_gender_model_loaded wb.

(** The same local object, in worlds with the same flags. *)
Definition same_local {L} (sa sb : L * world) : Prop :=
  fst sa = fst sb /\ same_flags (snd sa) (snd sb).

(** The emotion step of lines 143 to 146 completes on the crop [a]: the
    service answers, and the first record of a non-empty answer has a
    [dominant_emotion] key. *)
Definition emotion_step_completes (B : Backend) (a : ndarray) : Prop :=
  match analyze B [] a [act_emotion] with
  | Ok [] => True
  | Ok (rec :: _) => a_dominant_emotion rec <> None
  | Raise _ => False
  end.

(** With the flags of [w0], the answers of the service on the crop of [f]
    are in the record: the dominant emotion whenever the emotion call
    answers with one, and the age with the gender whenever the emotion step
    completed and the age and gender call answers with an age. *)
Definition answered (B : Backend) (img : ndarray) (w0 : world)
    (f : face_info) : Prop :=
  (emotion_model_loaded w0 = true ->
   forall rec rest e,
     analyze B [] (crop_box img (box f)) [act_emotion] = Ok (rec :: rest) ->
     a_dominant_emotion rec = Some e ->
     emotion f = Some e) /\
  (age_gender_model_loaded w0 = true ->
   emotion_model_loaded w0 = false \/
   emotion_step_completes B (crop_box img (box f)) ->
   forall rec rest a0,
     analyze B [] (crop_box img (box f)) [act_age; act_gender]
       = Ok (rec :: rest) ->
     a_age rec = Some a0 ->
     age f = Some a0 /\ gender f = a_dominant_gender rec).

(** ** Drawing failures *)








(** * Proofs *)

(** ** Basic facts on the monad *)

Section MonadFacts.

Context {S A B : Type}.

Lemma bind_inv (m : M S A) (k : A -> M S B) s r s' :
  bind m k s = (r, s') ->
  (exists a s1, m s = (Ok a, s1) /\ k a s1 = (r, s')) \/
  (exists e, m s = (Raise e, s') /\ r = Raise e).
Proof.
  unfold bind. destruct (m s) as [[a|e] s1]; intros H.
  - left. eauto.
  - right. inversion H; subst. eauto.
Qed.

Lemma bind_ok (m : M S A) (k : A -> M S B) s a s1 :
  m s = (Ok a, s1) -> bind m k s = k a s1.
Proof. unfold bind. intros ->. reflexivity. Qed.

End MonadFacts.

(** ** The label *)

Lemma append_nil_l (s : string) : "" +:+ s = s.
Proof. reflexivity. Qed.

Lemma append_cons a (s t : string) : String a s +:+ t = String a (s +:+ t).
Proof. reflexivity. Qed.

Lemma append_assoc (s t u : string) : (s +:+ t) +:+ u = s +:+ (t +:+ u).
Proof.
  induction s as [|a s IH]; [reflexivity|].
  rewrite !append_cons. now rewrite IH.
Qed.

Lemma append_nil_r (s : string) : s +:+ "" = s.
Proof.
  induction s as [|a s IH]; [reflexivity|].
  rewrite append_cons. now rewrite IH.
Qed.

(** The label built by the successive [+=] is the concatenation of the
    parts. *)
Lemma make_label_text fi : make_label fi = label_text fi.
Proof.
  unfold make_label, label_text, label_parts.
  destruct (emotion fi) as [e|], (age fi) as [a|], (gender fi) as [g|]; simpl;
    repeat match goal with
    | |- context [String.eqb ?x ""] => destruct (String.eqb x "")
    | |- context [?x =? 0] => destruct (x =? 0)
    end; simpl;
    rewrite ?append_nil_l, ?append_nil_r, ?append_assoc; reflexivity.
Qed.

(** The label is empty exactly when no field is truthy. *)
Lemma label_text_empty fi :
  String.eqb (label_text fi) "" =
  negb (truthy_str (emotion fi) || truthy_int (age fi) || truthy_str (gender fi)).
Proof.
  unfold label_text, label_parts.
  destruct (truthy_str (emotion fi)), (truthy_int (age fi)),
    (truthy_str (gender fi)); simpl;
    rewrite ?append_nil_l, ?append_cons; reflexivity.
Qed.

(** ** How each step changes the world *)

Lemma drawn_app t1 t2 : drawn (t1 ++ t2) = drawn t1 ++ drawn t2.
Proof.
  induction t1 as [|[img acts|l op] t1 IH]; simpl; [reflexivity|exact IH|].
  now rewrite IH.
Qed.

Lemma analysis_only_refl w : analysis_only w w.
Proof.
  repeat split. exists []. now rewrite app_nil_r.
Qed.

Lemma analysis_only_log w w' img acts :
  analysis_only w w' -> analysis_only w (log (EAnalyze img acts) w').
Proof.
  intros (Hh & He & Ha & t & Ht & Hd). repeat split; simpl; try assumption.
  exists (t ++ [EAnalyze img acts]). split.
  - now rewrite Ht, app_assoc.
  - now rewrite drawn_app, Hd.
Qed.

Section StepFacts.

Variable B : Backend.

Ltac run_block :=
  repeat match goal with
  | H : (_, _) = (_, _) |- _ => inversion H; subst; clear H
  | H : context [match ?x with _ => _ end] |- _ =>
      let E := fresh "E" in destruct x eqn:E; simpl in H
  end; simplify_eq/=.

Lemma analysis_block_spec face_img fi w r fi' w' :
  analysis_block B face_img (fi, w) = (r, (fi', w')) ->
  analysis_only w w' /\ box fi' = box fi /\ confidence fi' = confidence fi /\
  (forall e, r = Raise e ->
     is_Exception e = false /\
     exists t acts, analyze B t face_img acts = Raise e).
Proof.
  unfold analysis_block, try_except, bind, get, ret, lift, modify, in_world,
    DeepFace_analyze, getitem.
  simpl. intros H. run_block; simpl;
    (split; [auto using analysis_only_refl, analysis_only_log|]);
    (split; [reflexivity|]); (split; [reflexivity|]);
    intros e0 He0; simplify_eq/=; eauto.
Qed.

Lemma enrich_spec face_img fi0 w r w' :
  enrich B face_img fi0 w = (r, w') ->
  analysis_only w w' /\
  (forall fi, r = Ok fi -> box fi = box fi0 /\ confidence fi = confidence fi0) /\
  (forall e, r = Raise e ->
     is_Exception e = false /\
     exists t acts, analyze B t face_img acts = Raise e).
Proof.
  unfold enrich, with_local, ret.
  destruct (DEEPFACE_AVAILABLE B).
  - destruct (analysis_block B face_img (fi0, w)) as [r0 [fi1 w1]] eqn:E.
    apply analysis_block_spec in E as (Hw & Hb & Hc & Hr).
    destruct r0 as [[]|e]; intros H; simplify_eq; (split; [exact Hw|]);
      split; intros ? ?; simplify_eq; eauto.
  - intros H. simplify_eq. split; [apply analysis_only_refl|].
    split; intros ? ?; simplify_eq; eauto.
Qed.

Lemma annotate_spec result_img fi w res w' :
  annotate B result_img fi w = (res, w') ->
  (forall l, l <> result_img -> heap w' !! l = heap w !! l) /\
  emotion_model_loaded w' = emotion_model_loaded w /\
  age_gender_model_loaded w' = age_gender_model_loaded w /\
  match res with
  | Ok _ => trace w' = trace w ++ map (EDraw result_img) (annotations B fi)
  | Raise e =>
      exists op a, In op (annotations B fi) /\ draw_raises B op a = Some e
  end.
Proof.
  unfold annotate, annotations.
  destruct (box fi) as [[[x1 y1] x2] y2].
  rewrite make_label_text, label_text_empty, negb_involutive.
  destruct (truthy_str (emotion fi) || truthy_int (age fi)
            || truthy_str (gender fi));
    unfold bind, cv2_rectangle, cv2_putText, draw, draw_error, ret; simpl;
    intros H; run_block; simpl;
    (split; [intros l Hl; now rewrite ?lookup_alter_ne by congruence|]);
    (split; [reflexivity|]); (split; [reflexivity|]);
    rewrite <- ?app_assoc; try reflexivity;
    eexists; eexists; (split; [|eassumption]); simpl; auto 6.
Qed.

(** One iteration: the caller's buffer and the flags are left alone; the
    iteration raises, or skips the detection, or appends one record and
    draws its annotations. *)
Lemma loop_body_spec image result_img scs i b fd w img res w' :
  heap w !! image = Some img ->
  result_img <> image ->
  loop_body B image result_img scs i b fd w = (res, w') ->
  heap w' !! image = Some img /\
  emotion_model_loaded w' = emotion_model_loaded w /\
  age_gender_model_loaded w' = age_gender_model_loaded w /\
  match res with
  | Raise e =>
      unpack_box b = Raise e \/
      scs !! i = None \/
      (is_Exception e = false /\
       exists t a acts, analyze B t a acts = Raise e) \/
      (exists fi op a,
         unpack_box b = Ok (box fi) /\ In op (annotations B fi) /\
         draw_raises B op a = Some e)
  | Ok fd' =>
      (fd' = fd /\ w' = w /\ forall s, survives img (b, s) = false) \/
      (exists fi s,
         fd' = fd ++ [fi] /\ scs !! i = Some s /\ record_of (b, s) fi /\
         survives img (b, s) = true /\
         crop_kept img (box fi) /\
         drawn (trace w') =
           drawn (trace w) ++ map (pair result_img) (annotations B fi))
  end.
Proof.
  intros Himg Hne. unfold loop_body, bind, lift, read, ret, index_score.
  destruct (unpack_box b) as [[[[x1 y1] x2] y2]|e] eqn:Eb;
    [|now intros H; simplify_eq; repeat split; auto].
  rewrite Himg.
  destruct (too_small (crop img y1 y2 x1 x2)) eqn:Esmall.
  { intros H. simplify_eq. repeat split; auto. left. repeat split.
    intros s. unfold survives. simpl. now rewrite Eb, Esmall. }
  destruct (scs !! i) as [s|] eqn:Es;
    [|now intros H; simplify_eq; repeat split; auto].
  match goal with
  | |- context [enrich B ?a ?f w] =>
      destruct (enrich B a f w) as [ra wa] eqn:Er
  end.
  apply enrich_spec in Er as ((Hh & He & Ha & t & Ht & Hd) & Hok & Hraise).
  destruct ra as [fi|e].
  - destruct (annotate B result_img fi wa) as [[[]|ea] w2] eqn:Ean;
      apply annotate_spec in Ean as (Hh2 & He2 & Ha2 & Ht2);
      intros H; simplify_eq;
      destruct (Hok fi eq_refl) as [Hbox Hconf]; simpl in Hbox, Hconf;
      (split; [rewrite Hh2 by congruence; now rewrite Hh|]);
      (split; [congruence|]); (split; [congruence|]).
    2:{ right. right. right. destruct Ht2 as (op & a & Hin & Hop).
        exists fi, op, a. split; [congruence|]. split; assumption. }
    right. exists fi, s. split; [reflexivity|]. split; [reflexivity|].
    split; [split; simpl; congruence|].
    split; [unfold survives; simpl; now rewrite Eb, Esmall|].
    split.
    + rewrite Hbox. unfold crop_kept, too_small in *.
      apply orb_false_elim in Esmall as [Esmall E3].
      apply orb_false_elim in Esmall as [E1 E2].
      apply Z.eqb_neq in E1. apply Z.ltb_ge in E2, E3. auto.
    + rewrite Ht2, Ht, !drawn_app, Hd, app_nil_r. f_equal.
      clear. induction (annotations B fi); simpl; [reflexivity|now f_equal].
  - intros H. simplify_eq.
    split; [now rewrite Hh|]. split; [assumption|]. split; [assumption|].
    right. right. left.
    destruct (Hraise e eq_refl) as (Hx & t' & acts & Hy). eauto.
Qed.

(** The whole loop. *)
Lemma loop_spec image result_img scs img :
  result_img <> image ->
  forall bs i fd w res w',
  heap w !! image = Some img ->
  loop B image result_img scs i bs fd w = (res, w') ->
  heap w' !! image = Some img /\
  emotion_model_loaded w' = emotion_model_loaded w /\
  age_gender_model_loaded w' = age_gender_model_loaded w /\
  match res with
  | Raise e =>
      (exists b, In b bs /\ unpack_box b = Raise e) \/
      (length (drop i scs) < length bs)%nat \/
      (is_Exception e = false /\
       exists t a acts, analyze B t a acts = Raise e) \/
      (exists b fi op a,
         In b bs /\ unpack_box b = Ok (box fi) /\
         In op (annotations B fi) /\ draw_raises B op a = Some e)
  | Ok faces =>
      exists new,
        faces = fd ++ new /\
        Forall (fun f => crop_kept img (box f)) new /\
        drawn (trace w') =
          drawn (trace w) ++
          flat_map (fun f => map (pair result_img) (annotations B f)) new /\
        (length bs = length (drop i scs) ->
         Forall2 record_of
           (List.filter (survives img) (zip bs (drop i scs))) new)
  end.
Proof.
  intros Hne. induction bs as [|b bs IH]; intros i fd w res w' Himg Hrun.
  - simpl in Hrun. unfold ret in Hrun. simplify_eq.
    split; [assumption|]. split; [reflexivity|]. split; [reflexivity|].
    exists []. rewrite !app_nil_r.
    split; [reflexivity|]. split; [constructor|]. split; [reflexivity|].
    intros _. constructor.
  - simpl in Hrun. apply bind_inv in Hrun as [(fd1 & w1 & Hb & Hrest)|(e & Hb & ->)].
    + apply (loop_body_spec _ _ _ _ _ _ _ img) in Hb as (Hh1 & He1 & Ha1 & Hb);
        [|assumption..].
      apply IH in Hrest as (Hh2 & He2 & Ha2 & Hrest); [|assumption].
      split; [assumption|]. split; [congruence|]. split; [congruence|].
      destruct res as [faces|e].
      * destruct Hrest as (new & -> & Hkept & Hdraw & Hsub).
        destruct Hb as [(-> & -> & Hno)|(fi & s & -> & Hs & Hrec & Hyes & Hcrop & Hd1)].
        -- exists new.
           split; [reflexivity|]. split; [assumption|]. split; [assumption|].
           intros Hlen. simpl in Hlen.
           destruct (scs !! i) as [s0|] eqn:Es0.
           ++ rewrite (drop_S _ _ _ Es0) in Hlen |- *. simpl in Hlen.
              simpl. rewrite Hno. apply Hsub. lia.
           ++ apply lookup_ge_None in Es0. rewrite length_drop in Hlen. lia.
        -- exists (fi :: new). rewrite <- app_assoc. simpl.
           split; [reflexivity|]. split; [now constructor|].
           split; [now rewrite Hdraw, Hd1, <- app_assoc|].
           intros Hlen. simpl in Hlen.
           rewrite (drop_S _ _ _ Hs) in Hlen |- *. simpl in Hlen.
           simpl. rewrite Hyes. constructor; [assumption|]. apply Hsub. lia.
      * destruct Hrest as [(b' & Hin & Hu)|[Hlen|[Hexn|Hdraw]]].
        -- left. exists b'. split; [now right|assumption].
        -- right. left. simpl. rewrite !length_drop in *. lia.
        -- auto.
        -- right. right. right.
           destruct Hdraw as (b' & fi & op & a & Hin & Hrest).
           exists b', fi, op, a. split; [now right|assumption].
    + apply (loop_body_spec _ _ _ _ _ _ _ img) in Hb as (Hh1 & He1 & Ha1 & Hb);
        [|assumption..].
      split; [assumption|]. split; [assumption|]. split; [assumption|].
      destruct Hb as [Hu|[Hnone|[Hexn|Hdraw]]].
      * left. exists b. split; [now left|assumption].
      * right. left. apply lookup_ge_None in Hnone.
        rewrite length_drop. simpl. lia.
      * auto.
      * right. right. right. destruct Hdraw as (fi & op & a & Hrest).
        exists b, fi, op, a. split; [now left|assumption].
Qed.

End StepFacts.

(** ** The provisioner *)

Section Provisioner.

Variable B : Backend.

(** [_ensure_models_loaded] never raises and never touches a buffer.  With
    the service and both flags set it does nothing; with the service and a
    flag unset it makes both warm-up calls, and a flag is set afterwards
    when it was set before or its warm-up call returned. *)
Lemma ensure_models_loaded_spec w :
  exists w',
    _ensure_models_loaded B w = (Ok tt, w') /\
    heap w' = heap w /\
    (if DEEPFACE_AVAILABLE B
     then
       if emotion_model_loaded w && age_gender_model_loaded w then w' = w
       else
         trace w' = trace w ++ [warm_up_emotion; warm_up_age_gender] /\
         emotion_model_loaded w' =
           emotion_model_loaded w ||
           is_ok (analyze B (trace w) sample_img [act_emotion]) /\
         age_gender_model_loaded w' =
           age_gender_model_loaded w ||
           is_ok (analyze B (trace w ++ [warm_up_emotion]) sample_img
                    [act_age; act_gender])
     else w' = w).
Proof.
  unfold _ensure_models_loaded, warm_up_emotion, warm_up_age_gender.
  destruct (DEEPFACE_AVAILABLE B); simpl; [|now eexists].
  unfold bind at 1. unfold get.
  destruct (emotion_model_loaded w) eqn:Ee,
    (age_gender_model_loaded w) eqn:Ea; simpl; [now eexists|..];
    unfold try_except, bind, DeepFace_analyze, modify, any_exception, ret;
    simpl;
    destruct (analyze B (trace w) sample_img [act_emotion]); simpl;
    destruct (analyze B (trace w ++ [EAnalyze sample_img [act_emotion]])
                sample_img [act_age; act_gender]); simpl;
    eexists; (split; [reflexivity|]); simpl; rewrite <- ?app_assoc;
    rewrite ?Ee, ?Ea; auto.
Qed.

Lemma ensure_models_loaded_analysis_only w r w' :
  _ensure_models_loaded B w = (r, w') ->
  r = Ok tt /\ heap w' = heap w /\ drawn (trace w') = drawn (trace w).
Proof.
  destruct (ensure_models_loaded_spec w) as (w2 & Hrun & Hh & Hrest).
  rewrite Hrun. intros H. simplify_eq. split; [reflexivity|].
  split; [assumption|].
  destruct (DEEPFACE_AVAILABLE B); [|now subst].
  destruct (emotion_model_loaded w && age_gender_model_loaded w); [now subst|].
  destruct Hrest as (Ht & _). rewrite Ht, drawn_app. simpl.
  now rewrite app_nil_r.
Qed.

End Provisioner.

(** ** The confidence threshold *)

Lemma filter_sublist {A} (f : A -> bool) (l : list A) :
  sublist (List.filter f l) l.
Proof.
  induction l as [|x l IH]; simpl; [constructor|].
  destruct (f x); now constructor.
Qed.

Lemma mask_index_self {A} (f : A -> bool) (l : list A) :
  mask_index l (map f l) = Ok (List.filter f l).
Proof.
  induction l as [|x l IH]; simpl; [reflexivity|]. now rewrite IH.
Qed.

Lemma mask_index_zip {A C} (f : C -> bool) (bs : list A) (ss : list C) :
  mask_index bs (map f ss) =
  if (length bs =? length ss)%nat
  then Ok (map fst (List.filter (fun d => f (snd d)) (zip bs ss)))
  else Raise IndexError.
Proof.
  revert ss. induction bs as [|b bs IH]; intros [|s ss]; simpl;
    try reflexivity.
  rewrite IH. destruct (length bs =? length ss)%nat; [|reflexivity].
  now destruct (f s).
Qed.

Lemma filter_zip_snd {A C} (f : C -> bool) (bs : list A) (ss : list C) :
  length bs = length ss ->
  map snd (List.filter (fun d => f (snd d)) (zip bs ss)) = List.filter f ss.
Proof.
  revert ss. induction bs as [|b bs IH]; intros [|s ss] Hlen; simpl in *;
    try reflexivity; try discriminate.
  destruct (f s); simpl; rewrite IH by lia; reflexivity.
Qed.

Lemma select_confident_spec p :
  select_confident p =
  if (length (boxes p) =? length (scores p))%nat
  then
    let kept :=
      List.filter (fun d => float_gt (snd d) threshold)
        (zip (boxes p) (scores p)) in
    Ok (map fst kept, map snd kept)
  else Raise IndexError.
Proof.
  unfold select_confident. rewrite mask_index_zip, mask_index_self.
  destruct (length (boxes p) =? length (scores p))%nat eqn:E; [|reflexivity].
  apply Nat.eqb_eq in E. cbv zeta.
  now rewrite (filter_zip_snd (fun s => float_gt s threshold)).
Qed.

(** ** The whole call *)

Lemma zip_map_fst_snd {A C} (l : list (A * C)) :
  zip (map fst l) (map snd l) = l.
Proof.
  induction l as [|[a c] l IH]; simpl; [reflexivity|]. now rewrite IH.
Qed.

Section Call.

Variable B : Backend.
Variable self : FaceDetectionModel.

Lemma result_loc_fresh image img w :
  heap w !! image = Some img -> result_loc w <> image.
Proof.
  intros Himg Heq. apply (is_fresh (dom (heap w))).
  fold (result_loc w). rewrite Heq. apply elem_of_dom. now exists img.
Qed.

Lemma result_loc_unused w : heap w !! result_loc w = None.
Proof. apply not_elem_of_dom. unfold result_loc. apply is_fresh. Qed.

Lemma copied_lookup image img w :
  heap w !! image = Some img -> heap (copied img w) !! image = Some img.
Proof.
  intros Himg. simpl. rewrite lookup_insert_ne; [assumption|].
  now apply (result_loc_fresh image img).
Qed.

(** [detect_faces] copies the image, runs the selected detector, applies the
    threshold, and hands the candidates to the enrichment loop. *)
Lemma detect_faces_run image img w :
  heap w !! image = Some img ->
  detect_faces B self image w =
  match raw_detections B self img with
  | Raise e => (Raise e, copied img w)
  | Ok raw =>
      if has_detector self
      then enrich_and_draw B image (result_loc w)
             (map fst (candidates self raw)) (map snd (candidates self raw))
             (copied img w)
      else (Ok (result_loc w, []), copied img w)
  end.
Proof.
  intros Himg. pose proof (copied_lookup _ _ _ Himg) as Hcopy.
  assert (np_copy image w = (Ok (result_loc w), copied img w)) as Hcp.
  { unfold np_copy, bind, read, get, modify, ret. now rewrite Himg. }
  assert (read image (copied img w) = (Ok img, copied img w)) as Hrd.
  { unfold read. now rewrite Hcopy. }
  unfold detect_faces. rewrite (bind_ok _ _ _ _ _ Hcp).
  unfold raw_detections, has_detector, candidates.
  destruct (torch_available self); cbv beta iota delta [orb].
  - rewrite (bind_ok _ _ _ _ _ Hrd).
    destruct (model self img) as [p|e]; [|reflexivity].
    erewrite bind_ok by reflexivity. rewrite select_confident_spec.
    destruct (length (boxes p) =? length (scores p))%nat; reflexivity.
  - destruct (face_cascade self) as [cascade|]; [|reflexivity].
    unfold _detect_faces_opencv. unfold bind at 1.
    rewrite (bind_ok _ _ _ _ _ Hrd).
    destruct (cvtColor B img) as [gray|e]; [|reflexivity].
    erewrite bind_ok by reflexivity.
    destruct (cascade gray) as [faces|e]; [|reflexivity].
    erewrite bind_ok by reflexivity.
    unfold ret. cbv beta iota. rewrite !map_map.
    match goal with
    | |- _ = enrich_and_draw _ _ _ (map ?f1 _) (map ?f2 _) _ =>
        rewrite (map_ext f1
                   (fun '(x, y, w, h) =>
                      (CInt x, CInt y, CInt (x + w), CInt (y + h))))
          by (now intros [[[? ?] ?] ?]);
        rewrite (map_ext f2 (fun _ => Fin 1)) by (now intros [[[? ?] ?] ?])
    end.
    reflexivity.
Qed.

Lemma enrich_and_draw_spec image result_img bs scs img w res w' :
  result_img <> image ->
  heap w !! image = Some img ->
  enrich_and_draw B image result_img bs scs w = (res, w') ->
  heap w' !! image = Some img /\
  match res with
  | Raise e =>
      (exists b, In b bs /\ unpack_box b = Raise e) \/
      (length scs < length bs)%nat \/
      (is_Exception e = false /\
       exists t a acts, analyze B t a acts = Raise e) \/
      (exists b fi op a,
         In b bs /\ unpack_box b = Ok (box fi) /\
         In op (annotations B fi) /\ draw_raises B op a = Some e)
  | Ok (r, faces) =>
      r = result_img /\
      Forall (fun f => crop_kept img (box f)) faces /\
      drawn (trace w') =
        drawn (trace w) ++
        flat_map (fun f => map (pair result_img) (annotations B f)) faces /\
      (length bs = length scs ->
       Forall2 record_of (List.filter (survives img) (zip bs scs)) faces)
  end.
Proof.
  intros Hne Himg. unfold enrich_and_draw. intros Hrun.
  apply bind_inv in Hrun as [([] & w1 & Hwarm & Hrun)|(e & Hwarm & ->)].
  - assert (heap w1 = heap w /\ drawn (trace w1) = drawn (trace w)) as [Hh Hd].
    { destruct (DEEPFACE_AVAILABLE B).
      - apply ensure_models_loaded_analysis_only in Hwarm. tauto.
      - unfold ret in Hwarm. now simplify_eq. }
    apply bind_inv in Hrun as [(faces & w2 & Hloop & Hret)|(e & Hloop & ->)];
      (eapply loop_spec in Hloop as (Hh2 & _ & _ & Hres);
       [|exact Hne|rewrite Hh; exact Himg]).
    + unfold ret in Hret. simplify_eq. split; [assumption|].
      destruct Hres as (new & Hnew & Hkept & Hdraw & Hsub).
      simpl in Hnew. subst new.
      split; [reflexivity|]. split; [assumption|].
      split; [now rewrite Hdraw, Hd|]. exact Hsub.
    + split; [assumption|]. exact Hres.
  - exfalso. destruct (DEEPFACE_AVAILABLE B).
    + apply ensure_models_loaded_analysis_only in Hwarm. now destruct Hwarm.
    + unfold ret in Hwarm. simplify_eq.
Qed.

(** What a call of [detect_faces] does, in terms of the raw detections. *)
Lemma detect_faces_spec image img w res w' :
  heap w !! image = Some img ->
  detect_faces B self image w = (res, w') ->
  heap w' !! image = Some img /\
  match res with
  | Raise e =>
      raw_detections B self img = Raise e \/
      exists raw,
        raw_detections B self img = Ok raw /\
        ((exists d, In d (candidates self raw) /\
                    unpack_box (fst d) = Raise e) \/
         (is_Exception e = false /\
          exists t a acts, analyze B t a acts = Raise e) \/
         (exists d fi op a,
            In d (candidates self raw) /\ unpack_box (fst d) = Ok (box fi) /\
            In op (annotations B fi) /\ draw_raises B op a = Some e))
  | Ok (r, faces) =>
      r = result_loc w /\
      exists raw,
        raw_detections B self img = Ok raw /\
        Forall (fun f => crop_kept img (box f)) faces /\
        drawn (trace w') =
          drawn (trace w) ++
          flat_map (fun f => map (pair r) (annotations B f)) faces /\
        Forall2 record_of
          (List.filter (survives img) (candidates self raw)) faces
  end.
Proof.
  intros Himg. rewrite (detect_faces_run _ _ _ Himg).
  pose proof (copied_lookup _ _ _ Himg) as Hcopy.
  pose proof (result_loc_fresh _ _ _ Himg) as Hne.
  destruct (raw_detections B self img) as [raw|e] eqn:Eraw.
  - destruct (has_detector self) eqn:Ehas.
    + intros Hrun.
      eapply enrich_and_draw_spec in Hrun as (Hh & Hres); [|exact Hne|exact Hcopy].
      split; [assumption|].
      rewrite !length_map, zip_map_fst_snd in Hres.
      destruct res as [[r faces]|e].
      * destruct Hres as (-> & Hkept & Hdraw & Hsub).
        split; [reflexivity|]. exists raw. split; [reflexivity|].
        split; [assumption|]. split; [exact Hdraw|]. now apply Hsub.
      * right. exists raw. split; [reflexivity|].
        destruct Hres as [(b & Hin & Hu)|[Hlen|[Hexn|Hdraw]]];
          [|lia|now right; left|].
        -- left. apply in_map_iff in Hin as (d & <- & Hin). now exists d.
        -- right. right. destruct Hdraw as (b & fi & op & a & Hin & Hrest).
           apply in_map_iff in Hin as (d & <- & Hin). now exists d, fi, op, a.
    + intros H. simplify_eq. split; [assumption|].
      split; [reflexivity|]. exists raw. split; [reflexivity|].
      split; [constructor|]. simpl. rewrite app_nil_r.
      split; [reflexivity|].
      unfold has_detector in Ehas. unfold raw_detections in Eraw.
      unfold candidates.
      destruct (torch_available self); [discriminate|].
      destruct (face_cascade self); [discriminate|]. simplify_eq. constructor.
  - intros H. simplify_eq. split; [assumption|]. now left.
Qed.

End Call.

(** ** The claims *)

Lemma Forall2_record_conf (P : pyfloat -> Prop) ds faces :
  Forall2 record_of ds faces ->
  Forall (fun d => P (snd d)) ds ->
  Forall (fun f => P (confidence f)) faces.
Proof.
  induction 1 as [|d f ds faces [_ Hc] _ IH]; intros HP; [constructor|].
  inversion HP; subst. constructor; [now rewrite Hc|now apply IH].
Qed.

Lemma Forall_filter_bool {A} (P : A -> Prop) (f : A -> bool) (l : list A) :
  Forall P l -> Forall P (List.filter f l).
Proof.
  rewrite !List.Forall_forall. intros H x Hx.
  apply List.filter_In in Hx as [Hx _]. now apply H.
Qed.

Lemma In_zip_lookup {A C} (l1 : list A) (l2 : list C) i a c :
  l1 !! i = Some a -> l2 !! i = Some c -> In (a, c) (zip l1 l2).
Proof.
  revert l2 i. induction l1 as [|x l1 IH]; intros [|y l2] [|i] H1 H2;
    simplify_eq/=; [now left|right; eauto].
Qed.

Lemma Forall2_In_l {A C} (R : A -> C -> Prop) l k x :
  Forall2 R l k -> In x l -> exists y, In y k /\ R x y.
Proof.
  induction 1 as [|a c l k HR _ IH]; intros Hin; [destruct Hin|].
  destruct Hin as [->|Hin].
  - exists c. split; [now left|assumption].
  - destruct (IH Hin) as (y & Hy & HRy). exists y. split; [now right|assumption].
Qed.

Lemma learned_run_eq :
  detect_faces B_always one_face_model 0%nat (start_world (black 200 200)) =
  (Ok (1%nat, [learned_face]), snd learned_run).
Proof. vm_compute. reflexivity. Qed.

Lemma cascade_run_eq :
  detect_faces B_none cascade_only 0%nat (start_world (black 200 200)) =
  (Ok (1%nat, [cascade_face]), snd cascade_run).
Proof. vm_compute. reflexivity. Qed.

Lemma start_world_lookup img : heap (start_world img) !! 0%nat = Some img.
Proof. reflexivity. Qed.

(** C2: with the learned detector available every returned face record has
    a confidence above 0.7; with only the cascade detector available every
    returned face record has confidence 1.0. *)
Theorem confidence_above_threshold_or_one
    (B : Backend) (self : FaceDetectionModel) (image : loc) (img : ndarray)
    (w w' : world) (r : loc) (faces : list face_info) :
  heap w !! image = Some img ->
  detect_faces B self image w = (Ok (r, faces), w') ->
  (torch_available self = true ->
   Forall (fun f => float_gt (confidence f) threshold = true) faces) /\
  (torch_available self = false -> is_Some (face_cascade self) ->
   Forall (fun f => confidence f = Fin 1) faces).
Proof.
  intros Himg Hrun.
  apply (detect_faces_spec _ _ _ img) in Hrun as [_ Hres]; [|assumption].
  destruct Hres as (_ & raw & Hraw & _ & _ & Hrec).
  split.
  - intros Htorch.
    apply (Forall2_record_conf (fun s => float_gt s threshold = true) _ _ Hrec).
    apply Forall_filter_bool. unfold candidates. rewrite Htorch.
    apply List.Forall_forall. intros d Hd.
    now apply List.filter_In in Hd as [_ Hd].
  - intros Htorch [cascade Hcascade].
    apply (Forall2_record_conf (fun s => s = Fin 1) _ _ Hrec).
    apply Forall_filter_bool. unfold candidates. rewrite Htorch.
    unfold raw_detections in Hraw. rewrite Htorch, Hcascade in Hraw.
    destruct (cvtColor B img) as [gray|]; [|discriminate].
    destruct (cascade gray) as [rects|]; [|discriminate].
    inversion Hraw; subst raw. apply List.Forall_forall. intros d Hd.
    apply in_map_iff in Hd as ([[[x y] w0] h] & <- & _). reflexivity.
Qed.

Lemma confidence_above_threshold_or_one_witness :
  (torch_available one_face_model = true ->
   Forall (fun f => float_gt (confidence f) threshold = true) [learned_face]) /\
  (torch_available one_face_model = false ->
   is_Some (face_cascade one_face_model) ->
   Forall (fun f => confidence f = Fin 1) [learned_face]).
Proof.
  apply (confidence_above_threshold_or_one
           B_always one_face_model 0%nat (black 200 200)
           (start_world (black 200 200)) (snd learned_run) 1%nat).
  - apply start_world_lookup.
  - apply learned_run_eq.
Defined.

(** C3: the code breaks the claim.  Both sub-models are marked ready by the
    warm-up, the detector finds one face, and the emotion analysis of its
    crop raises: the single [try] block of lines 142 to 154 is left at that
    point, so the age and gender analysis of that face is never called and
    the record keeps [age] and [gender] null, although the age and gender
    group is ready.  The analysis calls made are the two warm-up calls and
    the emotion call on the crop. *)
Theorem emotion_failure_skips_age_gender :
  let out :=
    detect_faces B_emotion_fails one_face_model 0%nat
      (start_world (black 200 200)) in
  fst out =
    Ok (1%nat,
        [ {| box := (10, 10, 90, 90); confidence := Fin (95 # 100);
             emotion := None; age := None; gender := None |} ]) /\
  emotion_model_loaded (snd out) = true /\
  age_gender_model_loaded (snd out) = true /\
  map (fun c => (shape0 (fst c), shape1 (fst c), snd c))
      (analyzed (trace (snd out))) =
    [ (100, 100, [act_emotion]);
      (100, 100, [act_age; act_gender]);
      (80, 80, [act_emotion]) ].
Proof. vm_compute. repeat split; reflexivity. Qed.

(** C4, as stated, fails: with the emotion group already marked ready and
    the age and gender group pending, [_ensure_models_loaded] runs the
    emotion warm-up again. *)
Lemma ready_group_is_warmed_up_again :
  emotion_model_loaded half_ready = true /\
  trace (snd (_ensure_models_loaded B_always half_ready)) =
    [EAnalyze sample_img [act_emotion];
     EAnalyze sample_img [act_age; act_gender]].
Proof. split; reflexivity. Qed.

(** C4, amended: with the analysis service available,
    [_ensure_models_loaded] returns normally; when both flags are set it
    makes no warm-up call and changes nothing; when at least one flag is
    unset it makes both warm-up calls on the blank probe image, the emotion
    one first, also for a group already marked ready; afterwards a flag is
    set exactly when it was set before or its warm-up call returned.  So a
    flag never goes back to unset, and a pending group is warmed up again on
    every call while its flag is unset. *)
Theorem warm_up_runs_while_a_group_is_pending (B : Backend) (w : world) :
  DEEPFACE_AVAILABLE B = true ->
  exists w',
    _ensure_models_loaded B w = (Ok tt, w') /\
    heap w' = heap w /\
    trace w' =
      trace w ++
      (if emotion_model_loaded w && age_gender_model_loaded w then []
       else [EAnalyze sample_img [act_emotion];
             EAnalyze sample_img [act_age; act_gender]]) /\
    emotion_model_loaded w' =
      emotion_model_loaded w ||
      is_ok (analyze B (trace w) sample_img [act_emotion]) /\
    age_gender_model_loaded w' =
      age_gender_model_loaded w ||
      is_ok (analyze B (trace w ++ [EAnalyze sample_img [act_emotion]])
               sample_img [act_age; act_gender]).
Proof.
  intros Hav.
  destruct (ensure_models_loaded_spec B w) as (w' & Hrun & Hheap & Hrest).
  exists w'. split; [assumption|]. split; [assumption|].
  rewrite Hav in Hrest. unfold warm_up_emotion, warm_up_age_gender in Hrest.
  destruct (emotion_model_loaded w) eqn:Ee,
    (age_gender_model_loaded w) eqn:Ea; simpl in *.
  - subst w'. rewrite app_nil_r, Ee, Ea. auto.
  - destruct Hrest as (Ht & He & Ha). rewrite Ht, He, Ha. auto.
  - destruct Hrest as (Ht & He & Ha). rewrite Ht, He, Ha. auto.
  - destruct Hrest as (Ht & He & Ha). rewrite Ht, He, Ha. auto.
Qed.

Lemma warm_up_runs_while_a_group_is_pending_witness :
  DEEPFACE_AVAILABLE B_always = true /\
  exists w',
    _ensure_models_loaded B_always half_ready = (Ok tt, w') /\
    trace w' = [EAnalyze sample_img [act_emotion];
                EAnalyze sample_img [act_age; act_gender]] /\
    age_gender_model_loaded w' = true.
Proof.
  split; [reflexivity|].
  destruct (warm_up_runs_while_a_group_is_pending B_always half_ready eq_refl)
    as (w' & Hrun & _ & Ht & _ & Ha).
  exists w'. split; [exact Hrun|]. split; [exact Ht|exact Ha].
Defined.

Lemma slice_len_nonneg_bounds n a b :
  0 <= a -> 0 <= b -> 20 <= slice_len n a b -> 20 <= b - a.
Proof.
  unfold slice_len, slice_bound. intros Ha Hb.
  destruct (a <? 0) eqn:Ea; [apply Z.ltb_lt in Ea; lia|].
  destruct (b <? 0) eqn:Eb; [apply Z.ltb_lt in Eb; lia|].
  lia.
Qed.

(** C5: the crop of the input image at the box of a returned face record is
    not empty and has at least 20 rows and 20 columns (so a box with
    non-negative coordinates is at least 20 wide and 20 high); the returned
    records are those of the candidates whose crop passes this test, so a
    candidate whose crop is empty or smaller produces no record. *)
Theorem returned_faces_are_at_least_20_pixels
    (B : Backend) (self : FaceDetectionModel) (image : loc) (img : ndarray)
    (w w' : world) (r : loc) (faces : list face_info) :
  heap w !! image = Some img ->
  detect_faces B self image w = (Ok (r, faces), w') ->
  Forall (fun f =>
            let '(x1, y1, x2, y2) := box f in
            size (crop img y1 y2 x1 x2) <> 0 /\
            20 <= slice_len (shape0 img) y1 y2 /\
            20 <= slice_len (shape1 img) x1 x2 /\
            (0 <= y1 -> 0 <= y2 -> 20 <= y2 - y1) /\
            (0 <= x1 -> 0 <= x2 -> 20 <= x2 - x1)) faces /\
  exists raw,
    raw_detections B self img = Ok raw /\
    Forall2 record_of
      (List.filter (survives img) (candidates self raw)) faces.
Proof.
  intros Himg Hrun.
  apply (detect_faces_spec _ _ _ img) in Hrun as [_ Hres]; [|assumption].
  destruct Hres as (_ & raw & Hraw & Hkept & _ & Hrec).
  split; [|now exists raw].
  eapply Forall_impl; [exact Hkept|]. intros f. unfold crop_kept.
  destruct (box f) as [[[x1 y1] x2] y2]. simpl. intros (Hs & H0 & H1).
  repeat split; try assumption; intros; eapply slice_len_nonneg_bounds; eauto.
Qed.

Lemma returned_faces_are_at_least_20_pixels_witness :
  Forall (fun f =>
            let '(x1, y1, x2, y2) := box f in
            size (crop (black 200 200) y1 y2 x1 x2) <> 0 /\
            20 <= slice_len (shape0 (black 200 200)) y1 y2 /\
            20 <= slice_len (shape1 (black 200 200)) x1 x2 /\
            (0 <= y1 -> 0 <= y2 -> 20 <= y2 - y1) /\
            (0 <= x1 -> 0 <= x2 -> 20 <= x2 - x1)) [cascade_face] /\
  exists raw,
    raw_detections B_none cascade_only (black 200 200) = Ok raw /\
    Forall2 record_of
      (List.filter (survives (black 200 200)) (candidates cascade_only raw))
      [cascade_face].
Proof.
  apply (returned_faces_are_at_least_20_pixels
           B_none cascade_only 0%nat (black 200 200)
           (start_world (black 200 200)) (snd cascade_run) 1%nat).
  - apply start_world_lookup.
  - apply cascade_run_eq.
Defined.

Lemma candidates_sublist self raw : sublist (candidates self raw) raw.
Proof.
  unfold candidates. destruct (torch_available self); [|reflexivity].
  apply filter_sublist.
Qed.

(** C6: the returned records are no more than the raw detections of the
    selected detector, and they are the records of a subsequence of those
    detections, in the same order. *)
Theorem faces_follow_the_detection_order
    (B : Backend) (self : FaceDetectionModel) (image : loc) (img : ndarray)
    (w w' : world) (r : loc) (faces : list face_info) :
  heap w !! image = Some img ->
  detect_faces B self image w = (Ok (r, faces), w') ->
  exists raw kept,
    raw_detections B self img = Ok raw /\
    (length faces <= length raw)%nat /\
    sublist kept raw /\
    Forall2 record_of kept faces.
Proof.
  intros Himg Hrun.
  apply (detect_faces_spec _ _ _ img) in Hrun as [_ Hres]; [|assumption].
  destruct Hres as (_ & raw & Hraw & _ & _ & Hrec).
  assert (sublist (List.filter (survives img) (candidates self raw)) raw)
    as Hsub.
  { etrans; [apply filter_sublist|apply candidates_sublist]. }
  exists raw, (List.filter (survives img) (candidates self raw)).
  split; [assumption|]. split; [|split; assumption].
  rewrite <- (Forall2_length _ _ _ Hrec). now apply sublist_length.
Qed.

Lemma faces_follow_the_detection_order_witness :
  exists raw kept,
    raw_detections B_always one_face_model (black 200 200) = Ok raw /\
    (length [learned_face] <= length raw)%nat /\
    sublist kept raw /\
    Forall2 record_of kept [learned_face].
Proof.
  apply (faces_follow_the_detection_order
           B_always one_face_model 0%nat (black 200 200)
           (start_world (black 200 200)) (snd learned_run) 1%nat).
  - apply start_world_lookup.
  - apply learned_run_eq.
Defined.

Lemma flat_map_pair {A C} (r : A) (f : face_info -> list C) faces :
  flat_map (fun x => map (pair r) (f x)) faces = map (pair r) (flat_map f faces).
Proof.
  induction faces as [|x faces IH]; simpl; [reflexivity|].
  now rewrite IH, map_app.
Qed.

(** C7: whatever the outcome of the call, the caller's buffer holds the same
    array afterwards; the buffer returned is another one, and every drawing
    call of the run has that buffer as its target. *)
Theorem input_image_is_not_mutated
    (B : Backend) (self : FaceDetectionModel) (image : loc) (img : ndarray)
    (w w' : world) (res : result (loc * list face_info)) :
  heap w !! image = Some img ->
  detect_faces B self image w = (res, w') ->
  heap w' !! image = Some img /\
  forall r faces,
    res = Ok (r, faces) ->
    r <> image /\
    heap w !! r = None /\
    exists ops, drawn (trace w') = drawn (trace w) ++ map (pair r) ops.
Proof.
  intros Himg Hrun.
  apply (detect_faces_spec _ _ _ img) in Hrun as [Hkeep Hres]; [|assumption].
  split; [assumption|]. intros r faces ->.
  destruct Hres as (-> & raw & _ & _ & Hdraw & _).
  split; [now apply (result_loc_fresh image img)|].
  split; [apply result_loc_unused|].
  exists (flat_map (annotations B) faces). now rewrite Hdraw, flat_map_pair.
Qed.

Lemma input_image_is_not_mutated_witness :
  heap (snd learned_run) !! 0%nat = Some (black 200 200) /\
  forall r faces,
    Ok (1%nat, [learned_face]) = Ok (r, faces) ->
    r <> 0%nat /\
    heap (start_world (black 200 200)) !! r = None /\
    exists ops,
      drawn (trace (snd learned_run)) =
      drawn (trace (start_world (black 200 200))) ++ map (pair r) ops.
Proof.
  apply (input_image_is_not_mutated
           B_always one_face_model 0%nat (black 200 200)
           (start_world (black 200 200)) (snd learned_run)).
  - apply start_world_lookup.
  - apply learned_run_eq.
Defined.

(** C8: with neither detector available, [detect_faces] returns normally a
    new buffer holding a copy of the input image and an empty list of
    faces; nothing is analysed or drawn. *)
Theorem no_detector_returns_copy_and_no_faces
    (B : Backend) (self : FaceDetectionModel) (image : loc) (img : ndarray)
    (w : world) :
  heap w !! image = Some img ->
  torch_available self = false ->
  face_cascade self = None ->
  exists r w',
    detect_faces B self image w = (Ok (r, []), w') /\
    r <> image /\
    heap w !! r = None /\
    heap w' !! r = Some img /\
    heap w' !! image = Some img /\
    trace w' = trace w /\
    emotion_model_loaded w' = emotion_model_loaded w /\
    age_gender_model_loaded w' = age_gender_model_loaded w.
Proof.
  intros Himg Htorch Hcascade.
  exists (result_loc w), (copied img w).
  rewrite (detect_faces_run _ _ _ _ _ Himg).
  unfold raw_detections, has_detector. rewrite Htorch, Hcascade. simpl.
  split; [reflexivity|].
  split; [now apply (result_loc_fresh image img)|].
  split; [apply result_loc_unused|].
  split; [apply lookup_insert_eq|].
  split; [now apply copied_lookup|]. repeat split.
Qed.

Lemma no_detector_returns_copy_and_no_faces_witness :
  exists r w',
    detect_faces B_always no_detector 0%nat (start_world (black 200 200)) =
      (Ok (r, []), w') /\
    r <> 0%nat /\
    heap (start_world (black 200 200)) !! r = None /\
    heap w' !! r = Some (black 200 200) /\
    heap w' !! 0%nat = Some (black 200 200) /\
    trace w' = trace (start_world (black 200 200)) /\
    emotion_model_loaded w' =
      emotion_model_loaded (start_world (black 200 200)) /\
    age_gender_model_loaded w' =
      age_gender_model_loaded (start_world (black 200 200)).
Proof.
  apply (no_detector_returns_copy_and_no_faces
           B_always no_detector 0%nat (black 200 200)
           (start_world (black 200 200))); reflexivity.
Defined.

(** C9, as stated, fails.  With only the emotion field filled, the label
    drawn is ["Emotion: happy "], with a space after the last field, not the
    claimed ["Emotion: happy"]; and with an age of 0 and a gender, the label
    drawn is ["Gender: Man"]: the age is not null and is left out. *)
Lemma label_differs_from_the_claimed_format :
  (let out :=
     detect_faces B_emotion_only one_face_model 0%nat
       (start_world (black 200 200)) in
   let f := {| box := (10, 10, 90, 90); confidence := Fin (95 # 100);
               emotion := Some "happy"; age := None; gender := None |} in
   fst out = Ok (1%nat, [f]) /\
   drawn (trace (snd out)) =
     [ (1%nat, Rectangle (10, 10) (90, 90) blue 2);
       (1%nat, Rectangle (10, -10) (145, 10) blue (-1));
       (1%nat, PutText "Emotion: happy " (10, 5) (1 # 2) white 1) ] /\
   claimed_label f = "Emotion: happy") /\
  (let out :=
     detect_faces B_newborn one_face_model 0%nat
       (start_world (black 200 200)) in
   let f := {| box := (10, 10, 90, 90); confidence := Fin (95 # 100);
               emotion := None; age := Some 0; gender := Some "Man" |} in
   fst out = Ok (1%nat, [f]) /\
   drawn (trace (snd out)) =
     [ (1%nat, Rectangle (10, 10) (90, 90) blue 2);
       (1%nat, Rectangle (10, -10) (109, 10) blue (-1));
       (1%nat, PutText "Gender: Man" (10, 5) (1 # 2) white 1) ] /\
   claimed_label f = "Age: 0 Gender: Man").
Proof. vm_compute. repeat split; reflexivity. Qed.

(** C9, amended: for every retained face record the box is drawn, and a
    label is composed and drawn exactly when at least one of emotion, age,
    gender is truthy (not null, and not the empty string or the number 0);
    the label is the concatenation, in this order, of ["Emotion: <e> "],
    ["Age: <a> "] and ["Gender: <g>"] for the truthy fields, so a space
    follows the emotion part and the age part also at the end of the label;
    it is drawn as text at [(x1, y1 - 5)] over a filled strip from
    [(x1, y1 - 20)] to [(x1 + text width, y1)], right above the top edge
    of the box.  These are all the drawing calls of the run, in the order
    of the records. *)
Theorem labels_are_drawn_for_truthy_fields
    (B : Backend) (self : FaceDetectionModel) (image : loc) (img : ndarray)
    (w w' : world) (r : loc) (faces : list face_info) :
  heap w !! image = Some img ->
  detect_faces B self image w = (Ok (r, faces), w') ->
  drawn (trace w') =
    drawn (trace w) ++
    flat_map (fun f => map (pair r) (annotations B f)) faces /\
  Forall (fun f =>
            make_label f = label_text f /\
            (label_text f = "" <->
             truthy_str (emotion f) || truthy_int (age f)
             || truthy_str (gender f) = false)) faces.
Proof.
  intros Himg Hrun.
  apply (detect_faces_spec _ _ _ img) in Hrun as [_ Hres]; [|assumption].
  destruct Hres as (_ & raw & _ & _ & Hdraw & _).
  split; [assumption|].
  apply List.Forall_forall. intros f _. split; [apply make_label_text|].
  pose proof (label_text_empty f) as He.
  destruct (truthy_str (emotion f) || truthy_int (age f)
            || truthy_str (gender f)); simpl in He.
  - split; [|discriminate]. intros Hl. rewrite Hl in He. discriminate.
  - split; [reflexivity|]. intros _. now apply String.eqb_eq.
Qed.

Lemma labels_are_drawn_for_truthy_fields_witness :
  drawn (trace (snd learned_run)) =
    drawn (trace (start_world (black 200 200))) ++
    flat_map (fun f => map (pair 1%nat) (annotations B_always f))
      [learned_face] /\
  Forall (fun f =>
            make_label f = label_text f /\
            (label_text f = "" <->
             truthy_str (emotion f) || truthy_int (age f)
             || truthy_str (gender f) = false)) [learned_face].
Proof.
  apply (labels_are_drawn_for_truthy_fields
           B_always one_face_model 0%nat (black 200 200)
           (start_world (black 200 200)) (snd learned_run) 1%nat).
  - apply start_world_lookup.
  - apply learned_run_eq.
Defined.

Lemma bind_ext {S A C} (m : M S A) (k k' : A -> M S C) s :
  (forall a s1, k a s1 = k' a s1) -> bind m k s = bind m k' s.
Proof.
  intros H. unfold bind. destruct (m s) as [[a|e] s1]; [apply H|reflexivity].
Qed.

(** The class labels of the learned detector play no part in a call. *)
Lemma detect_faces_relabel B self g image w :
  detect_faces B (relabel g self) image w = detect_faces B self image w.
Proof.
  unfold detect_faces. apply bind_ext. intros result_img w1. simpl.
  destruct (torch_available self); [|reflexivity].
  apply bind_ext. intros img w2.
  unfold bind, lift. destruct (model self img) as [p|e]; reflexivity.
Qed.

(** C10: on the learned path a prediction with a score above 0.7 is a
    candidate whatever its class label, and gives a face record as soon as
    its crop passes the size test; replacing the class labels of the
    detector's output by any others leaves the whole call unchanged. *)
Theorem high_scores_are_kept_whatever_the_label
    (B : Backend) (self : FaceDetectionModel) (image : loc) (img : ndarray)
    (w w' : world) (r : loc) (faces : list face_info)
    (p : Prediction) (i : nat) (b : box_t) (s : pyfloat) (l : Z) :
  heap w !! image = Some img ->
  torch_available self = true ->
  model self img = Ok p ->
  detect_faces B self image w = (Ok (r, faces), w') ->
  boxes p !! i = Some b ->
  scores p !! i = Some s ->
  labels p !! i = Some l ->
  float_gt s threshold = true ->
  In (b, s) (candidates self (zip (boxes p) (scores p))) /\
  (survives img (b, s) = true ->
   exists f, In f faces /\ record_of (b, s) f) /\
  forall g,
    detect_faces B (relabel g self) image w = detect_faces B self image w.
Proof.
  intros Himg Htorch Hmodel Hrun Hb Hs _ Hgt.
  assert (In (b, s) (candidates self (zip (boxes p) (scores p)))) as Hcand.
  { unfold candidates. rewrite Htorch. apply List.filter_In.
    split; [now apply (In_zip_lookup _ _ i)|exact Hgt]. }
  split; [exact Hcand|]. split; [|intros g; apply detect_faces_relabel].
  intros Hsurv.
  apply (detect_faces_spec _ _ _ img) in Hrun as [_ Hres]; [|assumption].
  destruct Hres as (_ & raw & Hraw & _ & _ & Hrec).
  unfold raw_detections in Hraw. rewrite Htorch, Hmodel in Hraw.
  destruct (length (boxes p) =? length (scores p))%nat; [|discriminate].
  inversion Hraw; subst raw.
  apply (Forall2_In_l _ _ _ (b, s) Hrec).
  apply List.filter_In. split; assumption.
Qed.

Lemma high_scores_are_kept_whatever_the_label_witness :
  In (fbox 10 10 90 90, Fin (95 # 100))
    (candidates one_face_model
       (zip [fbox 10 10 90 90; fbox 20 20 60 60]
            [Fin (95 # 100); Fin (1 # 2)])) /\
  (survives (black 200 200) (fbox 10 10 90 90, Fin (95 # 100)) = true ->
   exists f, In f [learned_face] /\
             record_of (fbox 10 10 90 90, Fin (95 # 100)) f) /\
  forall g,
    detect_faces B_always (relabel g one_face_model) 0%nat
      (start_world (black 200 200)) =
    detect_faces B_always one_face_model 0%nat (start_world (black 200 200)).
Proof.
  apply (high_scores_are_kept_whatever_the_label
           B_always one_face_model 0%nat (black 200 200)
           (start_world (black 200 200)) (snd learned_run) 1%nat
           [learned_face]
           {| boxes := [fbox 10 10 90 90; fbox 20 20 60 60];
              labels := [18; 1];
              scores := [Fin (95 # 100); Fin (1 # 2)] |}
           0%nat (fbox 10 10 90 90) (Fin (95 # 100)) 18);
    [reflexivity|reflexivity|reflexivity|apply learned_run_eq|reflexivity..].
Defined.

(** * Further properties of the code *)

(** ** One iteration and the loop, by invariant *)

Section LoopInvariant.

Variable B : Backend.

Ltac run_block :=
  repeat match goal with
  | H : (_, _) = (_, _) |- _ => inversion H; subst; clear H
  | H : context [match ?x with _ => _ end] |- _ =>
      let E := fresh "E" in destruct x eqn:E; simpl in H
  end; simplify_eq/=.

(** A normal iteration either skips the detection or runs [enrich] and
    [annotate] on a new record. *)
Lemma loop_body_inv image result_img scs i b fd w img fd' w' :
  heap w !! image = Some img ->
  loop_body B image result_img scs i b fd w = (Ok fd', w') ->
  (fd' = fd /\ w' = w) \/
  exists x1 y1 x2 y2 s fi wa,
    unpack_box b = Ok (x1, y1, x2, y2) /\
    scs !! i = Some s /\
    enrich B (crop img y1 y2 x1 x2) (fresh_record (x1, y1, x2, y2) s) w
      = (Ok fi, wa) /\
    annotate B result_img fi wa = (Ok tt, w') /\
    fd' = fd ++ [fi].
Proof.
  intros Himg. unfold loop_body, bind, lift, read, ret, index_score.
  destruct (unpack_box b) as [[[[x1 y1] x2] y2]|e] eqn:Eb; [|discriminate].
  rewrite Himg.
  destruct (too_small (crop img y1 y2 x1 x2)); [intros H; simplify_eq; auto|].
  destruct (scs !! i) as [s|] eqn:Es; [|discriminate].
  fold (fresh_record (x1, y1, x2, y2) s).
  destruct (enrich B (crop img y1 y2 x1 x2) (fresh_record (x1, y1, x2, y2) s) w)
    as [[fi|e] wa] eqn:Er; [|discriminate].
  destruct (annotate B result_img fi wa) as [[[]|ea] w2] eqn:Ean;
    [|discriminate].
  intros H. simplify_eq. right.
  exists x1, y1, x2, y2, s, fi, wa. auto.
Qed.

(** The invariant rule of the loop: a relation between the world and the
    records appended so far that every enriched and annotated record
    maintains holds at the end of a normal run. *)
Lemma loop_invariant image result_img scs img
    (R : world -> list face_info -> Prop) :
  result_img <> image ->
  (forall w new x1 y1 x2 y2 s fi wa w',
     R w new ->
     heap w !! image = Some img ->
     enrich B (crop img y1 y2 x1 x2) (fresh_record (x1, y1, x2, y2) s) w
       = (Ok fi, wa) ->
     annotate B result_img fi wa = (Ok tt, w') ->
     R w' (new ++ [fi])) ->
  forall bs i fd new w faces w',
    heap w !! image = Some img ->
    R w new ->
    loop B image result_img scs i bs (fd ++ new) w = (Ok faces, w') ->
    exists new', faces = fd ++ new' /\ R w' new'.
Proof.
  intros Hne Hstep. induction bs as [|b bs IH];
    intros i fd new w faces w' Himg HR Hrun.
  - simpl in Hrun. unfold ret in Hrun. simplify_eq. eauto.
  - simpl in Hrun.
    apply bind_inv in Hrun as [(fd1 & w1 & Hb & Hrest)|(e & _ & ?)];
      [|discriminate].
    pose proof Hb as Hb'.
    apply (loop_body_spec _ _ _ _ _ _ _ _ img) in Hb' as (Hh1 & _);
      [|assumption..].
    apply (loop_body_inv _ _ _ _ _ _ _ img) in Hb; [|assumption].
    destruct Hb as [[-> ->]|(x1 & y1 & x2 & y2 & s & fi & wa & _ & _ & He & Ha & ->)].
    + eapply IH; eauto.
    + rewrite <- app_assoc in Hrest. eapply IH; eauto.
Qed.

(** Where the fields of an enriched record come from. *)
Lemma enrich_fields face_img b s w fi wa :
  enrich B face_img (fresh_record b s) w = (Ok fi, wa) ->
  (forall e, emotion fi = Some e ->
     DEEPFACE_AVAILABLE B = true /\ emotion_model_loaded w = true /\
     exists t rec rest,
       analyze B t face_img [act_emotion] = Ok (rec :: rest) /\
       a_dominant_emotion rec = Some e) /\
  (forall a, age fi = Some a ->
     DEEPFACE_AVAILABLE B = true /\ age_gender_model_loaded w = true /\
     exists t rec rest,
       analyze B t face_img [act_age; act_gender] = Ok (rec :: rest) /\
       a_age rec = Some a /\
       forall g, gender fi = Some g -> a_dominant_gender rec = Some g) /\
  (gender fi <> None -> age fi <> None).
Proof.
  unfold enrich, with_local, analysis_block, try_except, bind, get, ret, lift,
    modify, in_world, DeepFace_analyze, getitem, fresh_record.
  simpl. intros H. run_block; simpl; naive_solver eauto 10.
Qed.

(** The analysis calls of one enrichment: at most two, all on the crop. *)
Lemma enrich_calls face_img fi0 w r wa :
  enrich B face_img fi0 w = (r, wa) ->
  exists t,
    trace wa = trace w ++ t /\
    (length t <= 2)%nat /\
    (DEEPFACE_AVAILABLE B = false -> t = []) /\
    (emotion_model_loaded w = false ->
     age_gender_model_loaded w = false -> t = []) /\
    Forall (fun e => exists acts, e = EAnalyze face_img acts) t.
Proof.
  unfold enrich, with_local, analysis_block, try_except, bind, get, ret, lift,
    modify, in_world, DeepFace_analyze, getitem.
  simpl. intros H. run_block; simpl;
    first
      [ exists []; rewrite app_nil_r;
        repeat split; auto; (lia || constructor)
      | eexists [_]; (split; [reflexivity|]);
        repeat split; simpl; try lia; try congruence;
        repeat constructor; eauto
      | eexists [_; _]; (split; [now rewrite <- app_assoc|]);
        repeat split; simpl; try lia; try congruence;
        repeat constructor; eauto ].
Qed.

End LoopInvariant.

(** ** What a run of the loop establishes *)

Lemma analyzed_app t1 t2 : analyzed (t1 ++ t2) = analyzed t1 ++ analyzed t2.
Proof.
  induction t1 as [|[img acts|l op] t1 IH]; simpl; [reflexivity| |exact IH].
  now rewrite IH.
Qed.

Lemma analyzed_draws l ops : analyzed (map (EDraw l) ops) = [].
Proof. induction ops; simpl; auto. Qed.

Lemma analyzed_calls face_img t :
  Forall (fun e => exists acts, e = EAnalyze face_img acts) t ->
  length (analyzed t) = length t /\
  Forall (fun c => fst c = face_img) (analyzed t).
Proof.
  induction 1 as [|e t [acts ->] _ [IH1 IH2]]; simpl; [split; constructor|].
  split; [now rewrite IH1|now constructor].
Qed.

Lemma paint_app B ops1 ops2 a :
  paint B (ops1 ++ ops2) a = paint B ops2 (paint B ops1 a).
Proof. unfold paint. apply fold_left_app. Qed.

Section LoopFacts.

Variable B : Backend.

(** The buffer drawn on after [annotate]. *)
Lemma annotate_heap result_img fi w w' :
  annotate B result_img fi w = (Ok tt, w') ->
  heap w' !! result_img =
    paint B (annotations B fi) <$> heap w !! result_img.
Proof.
  unfold annotate, annotations.
  destruct (box fi) as [[[x1 y1] x2] y2].
  rewrite make_label_text, label_text_empty, negb_involutive.
  destruct (truthy_str (emotion fi) || truthy_int (age fi)
            || truthy_str (gender fi));
    unfold bind, cv2_rectangle, cv2_putText, draw, draw_error, ret; simpl;
    destruct (heap w !! result_img) as [a|] eqn:E; simpl;
    intros H;
    repeat (progress
              (rewrite ?lookup_alter_eq, ?E in H; simpl in H;
               try match goal with
                   | H : context [draw_raises B ?op ?b] |- _ =>
                       destruct (draw_raises B op b); simpl in H
                   end));
    simplify_eq/=; rewrite ?lookup_alter_eq, ?E; reflexivity.
Qed.

Lemma loop_facts_start img result_img w : loop_facts B img result_img w w [].
Proof.
  unfold loop_facts. split; [reflexivity|]. split; [reflexivity|].
  split; [constructor|]. split.
  - exists []. rewrite app_nil_r. repeat split; auto.
  - split; [reflexivity|]. simpl. now destruct (heap w !! result_img).
Qed.

Lemma loop_facts_step img result_img w0 w new x1 y1 x2 y2 s fi wa w' :
  loop_facts B img result_img w0 w new ->
  enrich B (crop img y1 y2 x1 x2) (fresh_record (x1, y1, x2, y2) s) w
    = (Ok fi, wa) ->
  annotate B result_img fi wa = (Ok tt, w') ->
  loop_facts B img result_img w0 w' (new ++ [fi]).
Proof.
  intros (He & Ha & Hsrc & (calls & Hcalls & Hlen & Hcrops & Hquiet) & Hother & Hres)
    Hen Han.
  pose proof (enrich_fields _ _ _ _ _ _ _ Hen) as (Fe & Fa & Fg).
  pose proof (enrich_calls _ _ _ _ _ _ Hen) as (t & Ht & Htlen & Htoff & Htflags & Htcrop).
  pose proof (enrich_spec _ _ _ _ _ _ Hen) as ((Hh1 & He1 & Ha1 & _) & Hbox & _).
  destruct (Hbox fi eq_refl) as [Hb _]. simpl in Hb.
  pose proof (annotate_heap _ _ _ _ Han) as Hpaint.
  pose proof (annotate_spec B result_img fi wa _ _ Han) as (Hh2 & He2 & Ha2 & Ht2).
  assert (crop_box img (box fi) = crop img y1 y2 x1 x2) as Hcb
    by now rewrite Hb.
  unfold loop_facts.
  split; [congruence|]. split; [congruence|]. split.
  { apply Forall_app. split; [assumption|]. constructor; [|constructor].
    split; [split; [|split]|split].
    - intros e Hfe. rewrite Hcb. destruct (Fe e Hfe) as (_ & _ & H). exact H.
    - intros a Hfa. rewrite Hcb. destruct (Fa a Hfa) as (_ & _ & H). exact H.
    - exact Fg.
    - intros Hn. destruct (emotion fi) as [e|] eqn:E; [|congruence].
      destruct (Fe e eq_refl) as (H1 & H2 & _). split; congruence.
    - intros Hn. destruct (age fi) as [a|] eqn:E; [|congruence].
      destruct (Fa a eq_refl) as (H1 & H2 & _). split; congruence. }
  split.
  { destruct (analyzed_calls _ _ Htcrop) as [Hal Hac].
    exists (calls ++ analyzed t).
    rewrite Ht2, Ht, !analyzed_app, analyzed_draws, app_nil_r, Hcalls.
    split; [now rewrite app_assoc|].
    split; [rewrite !length_app, Hal; simpl; lia|].
    split.
    - apply Forall_app. split.
      + eapply Forall_impl; [exact Hcrops|]. intros c (f & Hf & Hc).
        exists f. split; [apply in_or_app; now left|assumption].
      + eapply Forall_impl; [exact Hac|]. intros c Hc. exists fi.
        split; [apply in_or_app; right; now left|congruence].
    - intros Hq. rewrite (Hquiet Hq). simpl.
      destruct Hq as [Hoff|[Hqe Hqa]].
      + now rewrite (Htoff Hoff).
      + rewrite Htflags; [reflexivity|congruence..]. }
  split.
  { intros l Hl. rewrite Hh2 by assumption. rewrite Hh1. now apply Hother. }
  rewrite Hpaint, Hh1, Hres, flat_map_app. simpl. rewrite app_nil_r.
  destruct (heap w0 !! result_img); simpl; [|reflexivity].
  now rewrite paint_app.
Qed.

(** A normal run of the loop from [w0]. *)
Lemma loop_run_facts image result_img scs img bs w0 faces w' :
  result_img <> image ->
  heap w0 !! image = Some img ->
  loop B image result_img scs 0 bs [] w0 = (Ok faces, w') ->
  loop_facts B img result_img w0 w' faces.
Proof.
  intros Hne Himg Hrun.
  destruct (loop_invariant B image result_img scs img
              (loop_facts B img result_img w0) Hne) with
    (bs := bs) (i := 0%nat) (fd := @nil face_info) (new := @nil face_info)
    (w := w0) (faces := faces) (w' := w') as (new' & -> & HR).
  - intros w new x1 y1 x2 y2 s fi wa w2 HR _ Hen Han.
    eapply loop_facts_step; eauto.
  - assumption.
  - apply loop_facts_start.
  - exact Hrun.
  - exact HR.
Qed.

End LoopFacts.

(** ** What a normal call establishes *)

Section CallFacts.

Variable B : Backend.
Variable self : FaceDetectionModel.

(** The warm-up of a call: none without a detector or without the service. *)
Lemma detect_faces_facts image img w r faces w' :
  heap w !! image = Some img ->
  detect_faces B self image w = (Ok (r, faces), w') ->
  exists w1,
    (if has_detector self && DEEPFACE_AVAILABLE B
     then _ensure_models_loaded B else ret tt) (copied img w) = (Ok tt, w1) /\
    heap w1 = heap (copied img w) /\
    r = result_loc w /\
    loop_facts B img r w1 w' faces.
Proof.
  intros Himg. rewrite (detect_faces_run _ _ _ _ _ Himg).
  pose proof (copied_lookup _ _ _ Himg) as Hcopy.
  pose proof (result_loc_fresh _ _ _ Himg) as Hne.
  destruct (raw_detections B self img) as [raw|e]; [|discriminate].
  destruct (has_detector self); simpl.
  - unfold enrich_and_draw. intros Hrun.
    apply bind_inv in Hrun as [([] & w1 & Hwarm & Hrun)|(e & _ & ?)];
      [|discriminate].
    apply bind_inv in Hrun as [(fs & w2 & Hloop & Hret)|(e & _ & ?)];
      [|discriminate].
    unfold ret in Hret. simplify_eq.
    assert (heap w1 = heap (copied img w)) as Hh.
    { destruct (DEEPFACE_AVAILABLE B).
      - apply ensure_models_loaded_analysis_only in Hwarm. tauto.
      - unfold ret in Hwarm. now simplify_eq. }
    exists w1. split; [assumption|]. split; [assumption|].
    split; [reflexivity|].
    eapply loop_run_facts; [exact Hne| |exact Hloop]. now rewrite Hh.
  - intros H. simplify_eq. exists (copied img w).
    split; [reflexivity|]. split; [reflexivity|]. split; [reflexivity|].
    apply loop_facts_start.
Qed.

End CallFacts.

Lemma warm_up_flags B (b : bool) w w1 :
  (if b then _ensure_models_loaded B else ret tt) w = (Ok tt, w1) ->
  (emotion_model_loaded w = true -> emotion_model_loaded w1 = true) /\
  (age_gender_model_loaded w = true -> age_gender_model_loaded w1 = true) /\
  exists warm,
    trace w1 = trace w ++ warm /\
    (warm = [] \/ warm = [warm_up_emotion; warm_up_age_gender]) /\
    (DEEPFACE_AVAILABLE B = false -> w1 = w).
Proof.
  destruct b.
  - destruct (ensure_models_loaded_spec B w) as (w2 & Hrun & _ & Hrest).
    rewrite Hrun. intros H. simplify_eq.
    destruct (DEEPFACE_AVAILABLE B).
    + destruct (emotion_model_loaded w) eqn:Ee,
        (age_gender_model_loaded w) eqn:Ea; simpl in Hrest.
      * subst w1. repeat split; auto. exists []. rewrite app_nil_r. auto.
      * destruct Hrest as (Ht & He & Ha). repeat split; auto; [congruence|].
        exists [warm_up_emotion; warm_up_age_gender].
        repeat split; auto; discriminate.
      * destruct Hrest as (Ht & He & Ha). repeat split; auto; [congruence|].
        exists [warm_up_emotion; warm_up_age_gender].
        repeat split; auto; discriminate.
      * destruct Hrest as (Ht & He & Ha). repeat split; auto; try congruence.
        exists [warm_up_emotion; warm_up_age_gender].
        repeat split; auto; discriminate.
    + subst w1. repeat split; auto. exists []. rewrite app_nil_r. auto.
  - unfold ret. intros H. simplify_eq. repeat split; auto.
    exists []. rewrite app_nil_r. auto.
Qed.

(** ** Properties of a normal call *)

Lemma emotion_only_run_eq :
  detect_faces B_emotion_only one_face_model 0%nat
    (start_world (black 200 200)) =
  (Ok (1%nat, [emotion_only_face]), snd emotion_only_run).
Proof. vm_compute. reflexivity. Qed.

Lemma marking_run_eq :
  detect_faces B_marking one_face_model 0%nat (start_world (black 200 200)) =
  (Ok (1%nat, [marking_face]), snd marking_run).
Proof. vm_compute. reflexivity. Qed.

(** X1: without the analysis service, every returned record has emotion,
    age and gender null, the call makes no analysis call at all (no warm-up
    either) and leaves both flags as they were. *)
Theorem no_service_no_analysis
    (B : Backend) (self : FaceDetectionModel) (image : loc) (img : ndarray)
    (w w' : world) (r : loc) (faces : list face_info) :
  DEEPFACE_AVAILABLE B = false ->
  heap w !! image = Some img ->
  detect_faces B self image w = (Ok (r, faces), w') ->
  Forall blank_fields faces /\
  analyzed (trace w') = analyzed (trace w) /\
  emotion_model_loaded w' = emotion_model_loaded w /\
  age_gender_model_loaded w' = age_gender_model_loaded w.
Proof.
  intros Hoff Himg Hrun.
  destruct (detect_faces_facts _ _ _ _ _ _ _ _ Himg Hrun)
    as (w1 & Hwarm & _ & _ & He & Ha & Hsrc & (calls & Hcalls & _ & _ & Hq) & _).
  apply warm_up_flags in Hwarm as (_ & _ & _ & _ & _ & Hsame).
  specialize (Hsame Hoff). subst w1.
  split; [|rewrite Hcalls, Hq, ?app_nil_r; [auto|now left]].
  eapply Forall_impl; [exact Hsrc|]. intros f [(_ & _ & Hg) [Hge Hga]].
  assert (emotion f = None) as E1.
  { destruct (emotion f); [|reflexivity].
    destruct Hge as [H _]; congruence. }
  assert (age f = None) as E2.
  { destruct (age f); [|reflexivity]. destruct Hga as [H _]; congruence. }
  repeat split; try assumption.
  destruct (gender f); [|reflexivity]. exfalso. apply Hg; congruence.
Qed.

Lemma no_service_no_analysis_witness :
  Forall blank_fields [cascade_face] /\
  analyzed (trace (snd cascade_run)) =
    analyzed (trace (start_world (black 200 200))) /\
  emotion_model_loaded (snd cascade_run) =
    emotion_model_loaded (start_world (black 200 200)) /\
  age_gender_model_loaded (snd cascade_run) =
    age_gender_model_loaded (start_world (black 200 200)).
Proof.
  apply (no_service_no_analysis B_none cascade_only 0%nat (black 200 200)
           (start_world (black 200 200)) (snd cascade_run) 1%nat).
  - reflexivity.
  - apply start_world_lookup.
  - apply cascade_run_eq.
Defined.

(** X2: a field is filled only for a sub-model marked ready: when the
    emotion flag is unset after the call every returned record has a null
    emotion, and when the age and gender flag is unset every returned record
    has a null age and a null gender. *)
Theorem fields_only_for_ready_sub_models
    (B : Backend) (self : FaceDetectionModel) (image : loc) (img : ndarray)
    (w w' : world) (r : loc) (faces : list face_info) :
  heap w !! image = Some img ->
  detect_faces B self image w = (Ok (r, faces), w') ->
  (emotion_model_loaded w' = false ->
   Forall (fun f => emotion f = None) faces) /\
  (age_gender_model_loaded w' = false ->
   Forall (fun f => age f = None /\ gender f = None) faces).
Proof.
  intros Himg Hrun.
  destruct (detect_faces_facts _ _ _ _ _ _ _ _ Himg Hrun)
    as (w1 & _ & _ & _ & He & Ha & Hsrc & _).
  split; intros Hflag; (eapply Forall_impl; [exact Hsrc|]);
    intros f [(_ & _ & Hg) [Hge Hga]].
  - destruct (emotion f); [|reflexivity].
    destruct Hge as [_ H]; congruence.
  - assert (age f = None) as E.
    { destruct (age f); [|reflexivity]. destruct Hga as [_ H]; congruence. }
    split; [assumption|].
    destruct (gender f); [|reflexivity]. exfalso. apply Hg; congruence.
Qed.

Lemma fields_only_for_ready_sub_models_witness :
  age_gender_model_loaded (snd emotion_only_run) = false /\
  Forall (fun f => age f = None /\ gender f = None) [emotion_only_face].
Proof.
  split; [reflexivity|].
  apply (fields_only_for_ready_sub_models B_emotion_only one_face_model 0%nat
           (black 200 200) (start_world (black 200 200))
           (snd emotion_only_run) 1%nat).
  - apply start_world_lookup.
  - apply emotion_only_run_eq.
  - reflexivity.
Defined.

(** X3: the enrichment fields are never invented: a non-null emotion of a
    returned record is the [dominant_emotion] of the first record of an
    answer of the service to an emotion call on the record's crop, and a
    non-null age is the [age] of the first record of an answer to an age and
    gender call on that crop, whose [dominant_gender] is the record's gender
    when that is not null. *)
Theorem fields_come_from_the_analysis_of_the_crop
    (B : Backend) (self : FaceDetectionModel) (image : loc) (img : ndarray)
    (w w' : world) (r : loc) (faces : list face_info) :
  heap w !! image = Some img ->
  detect_faces B self image w = (Ok (r, faces), w') ->
  Forall (fun f =>
            (forall e, emotion f = Some e ->
               exists t rec rest,
                 analyze B t (crop_box img (box f)) [act_emotion]
                   = Ok (rec :: rest) /\
                 a_dominant_emotion rec = Some e) /\
            (forall a, age f = Some a ->
               exists t rec rest,
                 analyze B t (crop_box img (box f)) [act_age; act_gender]
                   = Ok (rec :: rest) /\
                 a_age rec = Some a /\
                 forall g, gender f = Some g ->
                           a_dominant_gender rec = Some g)) faces.
Proof.
  intros Himg Hrun.
  destruct (detect_faces_facts _ _ _ _ _ _ _ _ Himg Hrun)
    as (w1 & _ & _ & _ & _ & _ & Hsrc & _).
  eapply Forall_impl; [exact Hsrc|]. intros f [(H1 & H2 & _) _]. auto.
Qed.

Lemma fields_come_from_the_analysis_of_the_crop_witness :
  Forall (fun f =>
            (forall e, emotion f = Some e ->
               exists t rec rest,
                 analyze B_always t (crop_box (black 200 200) (box f))
                   [act_emotion] = Ok (rec :: rest) /\
                 a_dominant_emotion rec = Some e) /\
            (forall a, age f = Some a ->
               exists t rec rest,
                 analyze B_always t (crop_box (black 200 200) (box f))
                   [act_age; act_gender] = Ok (rec :: rest) /\
                 a_age rec = Some a /\
                 forall g, gender f = Some g ->
                           a_dominant_gender rec = Some g)) [learned_face].
Proof.
  apply (fields_come_from_the_analysis_of_the_crop B_always one_face_model
           0%nat (black 200 200) (start_world (black 200 200))
           (snd learned_run) 1%nat).
  - apply start_world_lookup.
  - apply learned_run_eq.
Defined.

(** X4: a returned record with a gender has an age (line 151 assigns the
    age before line 152 assigns the gender, inside the same [try]). *)
Theorem gender_implies_age
    (B : Backend) (self : FaceDetectionModel) (image : loc) (img : ndarray)
    (w w' : world) (r : loc) (faces : list face_info) :
  heap w !! image = Some img ->
  detect_faces B self image w = (Ok (r, faces), w') ->
  Forall (fun f => gender f <> None -> age f <> None) faces.
Proof.
  intros Himg Hrun.
  destruct (detect_faces_facts _ _ _ _ _ _ _ _ Himg Hrun)
    as (w1 & _ & _ & _ & _ & _ & Hsrc & _).
  eapply Forall_impl; [exact Hsrc|]. intros f [(_ & _ & H) _]. exact H.
Qed.

Lemma gender_implies_age_witness :
  Forall (fun f => gender f <> None -> age f <> None) [marking_face].
Proof.
  apply (gender_implies_age B_marking one_face_model 0%nat (black 200 200)
           (start_world (black 200 200)) (snd marking_run) 1%nat).
  - apply start_world_lookup.
  - apply marking_run_eq.
Defined.

(** X5: the analysis calls of a call that returns are, in order, the
    warm-up calls on the blank probe (none or both) and then calls on crops
    of returned records only, at most two for each record: a region that
    gives no record is never analysed. *)
Theorem only_returned_crops_are_analysed
    (B : Backend) (self : FaceDetectionModel) (image : loc) (img : ndarray)
    (w w' : world) (r : loc) (faces : list face_info) :
  heap w !! image = Some img ->
  detect_faces B self image w = (Ok (r, faces), w') ->
  exists warm calls,
    analyzed (trace w') = analyzed (trace w) ++ warm ++ calls /\
    (warm = [] \/
     warm = [(sample_img, [act_emotion]);
             (sample_img, [act_age; act_gender])]) /\
    (length calls <= 2 * length faces)%nat /\
    Forall (fun c => exists f, In f faces /\ fst c = crop_box img (box f))
      calls.
Proof.
  intros Himg Hrun.
  destruct (detect_faces_facts _ _ _ _ _ _ _ _ Himg Hrun)
    as (w1 & Hwarm & _ & _ & _ & _ & _ & (calls & Hcalls & Hlen & Hcrops & _) & _).
  apply warm_up_flags in Hwarm as (_ & _ & warm & Ht & Hw & _).
  exists (analyzed warm), calls.
  rewrite Hcalls, Ht, analyzed_app, <- app_assoc.
  split; [reflexivity|]. split; [|split; assumption].
  destruct Hw as [-> | ->]; [now left|now right].
Qed.

Lemma only_returned_crops_are_analysed_witness :
  exists warm calls,
    analyzed (trace (snd learned_run)) =
      analyzed (trace (start_world (black 200 200))) ++ warm ++ calls /\
    (warm = [] \/
     warm = [(sample_img, [act_emotion]);
             (sample_img, [act_age; act_gender])]) /\
    (length calls <= 2 * length [learned_face])%nat /\
    Forall (fun c => exists f, In f [learned_face] /\
                               fst c = crop_box (black 200 200) (box f))
      calls.
Proof.
  apply (only_returned_crops_are_analysed B_always one_face_model 0%nat
           (black 200 200) (start_world (black 200 200))
           (snd learned_run) 1%nat).
  - apply start_world_lookup.
  - apply learned_run_eq.
Defined.

(** X6: the returned buffer holds the input image with the annotations of
    the returned records rendered on it in order, and nothing else; with no
    record it holds the input image unchanged.  Every buffer that existed
    before the call is left as it was. *)
Theorem annotated_image_is_the_painted_copy
    (B : Backend) (self : FaceDetectionModel) (image : loc) (img : ndarray)
    (w w' : world) (r : loc) (faces : list face_info) :
  heap w !! image = Some img ->
  detect_faces B self image w = (Ok (r, faces), w') ->
  heap w' !! r = Some (paint B (flat_map (annotations B) faces) img) /\
  (faces = [] -> heap w' !! r = Some img) /\
  forall l, l <> r -> heap w' !! l = heap w !! l.
Proof.
  intros Himg Hrun.
  destruct (detect_faces_facts _ _ _ _ _ _ _ _ Himg Hrun)
    as (w1 & _ & Hh & -> & _ & _ & _ & _ & Hother & Hres).
  assert (heap w' !! result_loc w =
          Some (paint B (flat_map (annotations B) faces) img)) as Hr.
  { rewrite Hres, Hh. simpl. now rewrite lookup_insert_eq. }
  split; [exact Hr|]. split; [now intros ->|].
  intros l Hl. rewrite Hother by assumption. rewrite Hh. simpl.
  now rewrite lookup_insert_ne by congruence.
Qed.

Lemma annotated_image_is_the_painted_copy_witness :
  heap (snd marking_run) !! 1%nat =
    Some (paint B_marking (flat_map (annotations B_marking) [marking_face])
            (black 200 200)) /\
  ([marking_face] = [] -> heap (snd marking_run) !! 1%nat
                          = Some (black 200 200)) /\
  forall l, l <> 1%nat ->
            heap (snd marking_run) !! l
            = heap (start_world (black 200 200)) !! l.
Proof.
  apply (annotated_image_is_the_painted_copy B_marking one_face_model 0%nat
           (black 200 200) (start_world (black 200 200))
           (snd marking_run) 1%nat).
  - apply start_world_lookup.
  - apply marking_run_eq.
Defined.

(** ** Properties of every call *)


Lemma enrich_and_draw_flags B image result_img bs scs img w res w' :
  result_img <> image ->
  heap w !! image = Some img ->
  enrich_and_draw B image result_img bs scs w = (res, w') ->
  exists w1,
    (if DEEPFACE_AVAILABLE B then _ensure_models_loaded B else ret tt) w
      = (Ok tt, w1) /\
    emotion_model_loaded w' = emotion_model_loaded w1 /\
    age_gender_model_loaded w' = age_gender_model_loaded w1.
Proof.
  intros Hne Himg. unfold enrich_and_draw. intros Hrun.
  apply bind_inv in Hrun as [([] & w1 & Hwarm & Hrun)|(e & Hwarm & ->)].
  - exists w1. split; [assumption|].
    assert (heap w1 = heap w) as Hh.
    { destruct (DEEPFACE_AVAILABLE B).
      - apply ensure_models_loaded_analysis_only in Hwarm. tauto.
      - unfold ret in Hwarm. now simplify_eq. }
    apply bind_inv in Hrun as [(faces & w2 & Hloop & Hret)|(e & Hloop & ->)];
      (eapply loop_spec in Hloop as (_ & He & Ha & _);
       [|exact Hne|rewrite Hh; exact Himg]).
    + unfold ret in Hret. simplify_eq. auto.
    + auto.
  - exfalso. destruct (DEEPFACE_AVAILABLE B).
    + apply ensure_models_loaded_analysis_only in Hwarm. now destruct Hwarm.
    + unfold ret in Hwarm. simplify_eq.
Qed.

(** X7: whatever the outcome of the call, a flag that is set stays set: the
    flags only ever go from unset to set. *)
Theorem ready_flags_are_never_reset
    (B : Backend) (self : FaceDetectionModel) (image : loc) (img : ndarray)
    (w w' : world) (res : result (loc * list face_info)) :
  heap w !! image = Some img ->
  detect_faces B self image w = (res, w') ->
  (emotion_model_loaded w = true -> emotion_model_loaded w' = true) /\
  (age_gender_model_loaded w = true -> age_gender_model_loaded w' = true).
Proof.
  intros Himg. rewrite (detect_faces_run _ _ _ _ _ Himg).
  pose proof (copied_lookup _ _ _ Himg) as Hcopy.
  pose proof (result_loc_fresh _ _ _ Himg) as Hne.
  destruct (raw_detections B self img) as [raw|e];
    [|intros H; simplify_eq; auto].
  destruct (has_detector self); [|intros H; simplify_eq; auto].
  intros Hrun.
  eapply enrich_and_draw_flags in Hrun as (w1 & Hwarm & He & Ha);
    [|exact Hne|exact Hcopy].
  apply warm_up_flags in Hwarm as (H1 & H2 & _).
  rewrite He, Ha. simpl in H1, H2. auto.
Qed.

Lemma ready_flags_are_never_reset_witness :
  (emotion_model_loaded half_ready = true ->
   emotion_model_loaded
     (snd (detect_faces B_emotion_fails one_face_model 0%nat half_ready))
   = true) /\
  (age_gender_model_loaded half_ready = true ->
   age_gender_model_loaded
     (snd (detect_faces B_emotion_fails one_face_model 0%nat half_ready))
   = true).
Proof.
  apply (ready_flags_are_never_reset B_emotion_fails one_face_model 0%nat
           (black 200 200) half_ready
           (snd (detect_faces B_emotion_fails one_face_model 0%nat half_ready))
           (fst (detect_faces B_emotion_fails one_face_model 0%nat half_ready))).
  - reflexivity.
  - apply surjective_pairing.
Defined.



Lemma slice_len_in_bounds n a b :
  0 <= a -> a <= b -> b <= n -> slice_len n a b = b - a.
Proof.
  unfold slice_len, slice_bound. intros Ha Hab Hb.
  destruct (a <? 0) eqn:Ea; [apply Z.ltb_lt in Ea; lia|].
  destruct (b <? 0) eqn:Eb; [apply Z.ltb_lt in Eb; lia|].
  lia.
Qed.

Lemma slice_len_le n a b : 0 <= n -> slice_len n a b <= n.
Proof.
  unfold slice_len, slice_bound. intros Hn.
  destruct (Z.ltb_spec a 0), (Z.ltb_spec b 0); lia.
Qed.

(** X9: the size filter drops nothing else: a candidate whose box lies
    inside the image and is at least 20 pixels wide and 20 pixels high gives
    a record with that box and its score (the image having at least one
    channel). *)
Theorem boxes_of_20_pixels_inside_the_image_are_returned
    (B : Backend) (self : FaceDetectionModel) (image : loc) (img : ndarray)
    (w w' : world) (r : loc) (faces : list face_info)
    (raw : list (box_t * pyfloat)) (d : box_t * pyfloat) (x1 y1 x2 y2 : Z) :
  heap w !! image = Some img ->
  detect_faces B self image w = (Ok (r, faces), w') ->
  raw_detections B self img = Ok raw ->
  In d (candidates self raw) ->
  unpack_box (fst d) = Ok (x1, y1, x2, y2) ->
  0 <= x1 -> x1 + 20 <= x2 -> x2 <= shape1 img ->
  0 <= y1 -> y1 + 20 <= y2 -> y2 <= shape0 img ->
  shape2 img <> 0 ->
  exists f, In f faces /\ box f = (x1, y1, x2, y2) /\ confidence f = snd d.
Proof.
  intros Himg Hrun Hraw Hin Hbox Hx1 Hx2 Hx3 Hy1 Hy2 Hy3 Hc.
  apply (detect_faces_spec _ _ _ img) in Hrun as [_ Hres]; [|assumption].
  destruct Hres as (_ & raw' & Hraw' & _ & _ & Hrec).
  assert (raw' = raw) as -> by congruence.
  assert (survives img d = true) as Hs.
  { unfold survives. rewrite Hbox. unfold too_small, size. simpl.
    rewrite !slice_len_in_bounds by lia.
    apply negb_true_iff. apply orb_false_intro; [apply orb_false_intro|].
    - apply Z.eqb_neq. intros Hp.
      apply Z.mul_eq_0 in Hp as [Hp|Hp]; [|contradiction].
      apply Z.mul_eq_0 in Hp as [Hp|Hp]; lia.
    - apply Z.ltb_ge. lia.
    - apply Z.ltb_ge. lia. }
  destruct (Forall2_In_l _ _ _ d Hrec) as (f & Hf & Hu & Hconf).
  { apply List.filter_In. split; assumption. }
  exists f. split; [assumption|]. split; [congruence|assumption].
Qed.

Lemma boxes_of_20_pixels_inside_the_image_are_returned_witness :
  exists f, In f [learned_face] /\ box f = (10, 10, 90, 90) /\
            confidence f = snd (fbox 10 10 90 90, Fin (95 # 100)).
Proof.
  apply (boxes_of_20_pixels_inside_the_image_are_returned
           B_always one_face_model 0%nat (black 200 200)
           (start_world (black 200 200)) (snd learned_run) 1%nat
           [learned_face]
           [(fbox 10 10 90 90, Fin (95 # 100)); (fbox 20 20 60 60, Fin (1 # 2))]
           (fbox 10 10 90 90, Fin (95 # 100)) 10 10 90 90);
    [apply start_world_lookup|apply learned_run_eq|reflexivity|now left
    |reflexivity|simpl; lia..|discriminate].
Defined.

(** X10: an image with fewer than 20 rows or fewer than 20 columns, or with
    no channel, gives no face record, whatever the detector returns. *)
Theorem small_images_give_no_faces
    (B : Backend) (self : FaceDetectionModel) (image : loc) (img : ndarray)
    (w w' : world) (r : loc) (faces : list face_info) :
  heap w !! image = Some img ->
  detect_faces B self image w = (Ok (r, faces), w') ->
  0 <= shape0 img -> 0 <= shape1 img ->
  shape0 img < 20 \/ shape1 img < 20 \/ shape2 img = 0 ->
  faces = [].
Proof.
  intros Himg Hrun H0 H1 Hsmall.
  apply (detect_faces_spec _ _ _ img) in Hrun as [_ Hres]; [|assumption].
  destruct Hres as (_ & raw & _ & Hkept & _).
  destruct faces as [|f faces]; [reflexivity|]. exfalso.
  inversion Hkept as [|? ? Hf _]; subst. unfold crop_kept in Hf.
  destruct (box f) as [[[x1 y1] x2] y2]. unfold size in Hf. simpl in Hf.
  destruct Hf as (Hs & Hr & Hc).
  pose proof (slice_len_le (shape0 img) y1 y2 H0).
  pose proof (slice_len_le (shape1 img) x1 x2 H1).
  destruct Hsmall as [?|[?| Hz]]; [lia|lia|].
  apply Hs. rewrite Hz. lia.
Qed.

Lemma small_images_give_no_faces_witness : @nil face_info = [].
Proof.
  apply (small_images_give_no_faces B_always one_face_model 0%nat
           (black 10 10) tiny_world (snd tiny_run) 1%nat []);
    [reflexivity|vm_compute; reflexivity|simpl; lia|simpl; lia|left; simpl; lia].
Defined.

(** X11: the learned detector has priority: when it is available the
    cascade attribute plays no part in a call, and when it is not the
    learned model is never run. *)
Theorem the_other_detector_is_not_consulted
    (B : Backend) (self : FaceDetectionModel) (image : loc) (w : world)
    (c : option (ndarray -> result (list rect)))
    (m : ndarray -> result Prediction) :
  (torch_available self = true ->
   detect_faces B (with_cascade c self) image w = detect_faces B self image w) /\
  (torch_available self = false ->
   detect_faces B (with_model m self) image w = detect_faces B self image w).
Proof.
  split; intros Ht; unfold detect_faces; simpl; rewrite Ht; reflexivity.
Qed.

(** ** Two calls in a row *)

Section Related.

Context {S : Type} (R : S -> S -> Prop).

Lemma related_ret {A} (a : A) : related R (ret a).
Proof. intros sa sb H. auto. Qed.

Lemma related_lift {A} (r : result A) : related R (lift r).
Proof. intros sa sb H. auto. Qed.

Lemma related_modify (f : S -> S) :
  (forall sa sb, R sa sb -> R (f sa) (f sb)) -> related R (modify f).
Proof. intros Hf sa sb H. simpl. auto. Qed.

Lemma related_bind {A C} (m : M S A) (k : A -> M S C) :
  related R m -> (forall a, related R (k a)) -> related R (bind m k).
Proof.
  intros Hm Hk sa sb H. unfold bind. destruct (Hm sa sb H) as [Hv Hs].
  destruct (m sa) as [[a|e] sa1], (m sb) as [[b|e'] sb1]; simpl in *;
    simplify_eq; auto.
  now apply Hk.
Qed.

Lemma related_try {A} (body : M S A) (catches : exn -> bool)
    (handler : exn -> M S A) :
  related R body -> (forall e, related R (handler e)) ->
  related R (try_except body catches handler).
Proof.
  intros Hm Hh sa sb H. unfold try_except. destruct (Hm sa sb H) as [Hv Hs].
  destruct (body sa) as [[a|e] sa1], (body sb) as [[b|e'] sb1]; simpl in *;
    simplify_eq; auto.
  destruct (catches e'); [now apply Hh|auto].
Qed.

Lemma related_get_with {A V} (f : S -> V) (k : V -> M S A) :
  (forall sa sb, R sa sb -> f sa = f sb) ->
  (forall v, related R (k v)) ->
  related R (bind get (fun s => k (f s))).
Proof.
  intros Hf Hk sa sb H. unfold bind, get. rewrite (Hf sa sb H).
  now apply Hk.
Qed.

End Related.

Section Repeat.

Variable B : Backend.
Hypothesis Hdet : history_independent B.

Lemma related_analyze a acts :
  related (@same_local face_info) (in_world (DeepFace_analyze B a acts)).
Proof.
  intros [la wa] [lb wb] [Hl Hf]. unfold in_world, DeepFace_analyze. simpl.
  split; [apply Hdet|]. split; [assumption|exact Hf].
Qed.

Lemma related_set (f : face_info -> face_info) :
  related (@same_local face_info) (modify (fun s => (f (fst s), snd s))).
Proof.
  apply related_modify. intros [la wa] [lb wb] [Hl Hf]. simpl in *.
  split; simpl; [now rewrite Hl|assumption].
Qed.

Lemma related_analysis_block a :
  related (@same_local face_info) (analysis_block B a).
Proof.
  unfold analysis_block.
  apply related_try; [|intros; apply related_ret].
  apply related_bind; [|intros _].
  - apply (related_get_with _
             (fun s : face_info * world => emotion_model_loaded (snd s))
             (fun v : bool => if v then _ else _)).
    + intros sa sb [_ [He _]]. exact He.
    + intros [|]; [|apply related_ret].
      apply related_bind; [apply related_analyze|].
      intros [|first rest]; [apply related_ret|].
      apply related_bind; [apply related_lift|]. intros e. apply related_set.
  - apply (related_get_with _
             (fun s : face_info * world => age_gender_model_loaded (snd s))
             (fun v : bool => if v then _ else _)).
    + intros sa sb [_ [_ Ha]]. exact Ha.
    + intros [|]; [|apply related_ret].
      apply related_bind; [apply related_analyze|].
      intros [|first rest]; [apply related_ret|].
      apply related_bind; [apply related_lift|]. intros a0.
      apply related_bind; [apply related_set|]. intros _.
      apply related_bind; [apply related_lift|]. intros g. apply related_set.
Qed.

(** With the same flags, the enrichment of a crop gives the same record or
    raises the same exception. *)
Lemma enrich_sim a fi0 wa wb :
  emotion_model_loaded wa = emotion_model_loaded wb ->
  age_gender_model_loaded wa = age_gender_model_loaded wb ->
  fst (enrich B a fi0 wa) = fst (enrich B a fi0 wb).
Proof.
  intros He Ha. unfold enrich, with_local, ret.
  destruct (DEEPFACE_AVAILABLE B); [|reflexivity].
  destruct (related_analysis_block a (fi0, wa) (fi0, wb)) as [Hv [Hl _]].
  { split; [reflexivity|split; assumption]. }
  destruct (analysis_block B a (fi0, wa)) as [[[]|ea] [la wa1]],
    (analysis_block B a (fi0, wb)) as [[[]|eb] [lb wb1]];
    simpl in *; simplify_eq; reflexivity.
Qed.

(** Two drawing calls on buffers with the same contents have the same
    outcome, and leave the same contents. *)
Lemma draw_sim ra rb op wa wb :
  heap wa !! ra = heap wb !! rb ->
  fst (draw B ra op wa) = fst (draw B rb op wb) /\
  heap (snd (draw B ra op wa)) !! ra = heap (snd (draw B rb op wb)) !! rb.
Proof.
  intros H. unfold draw, draw_error. rewrite H.
  destruct (heap wb !! rb) as [a|] eqn:E.
  - destruct (draw_raises B op a); simpl; [split; [reflexivity|congruence]|].
    split; [reflexivity|]. rewrite !lookup_alter_eq, H, E. reflexivity.
  - simpl. split; [reflexivity|]. rewrite !lookup_alter_eq, H, E. reflexivity.
Qed.

Lemma draw_then_sim {A} ra rb op (ka kb : M world A) wa wb :
  heap wa !! ra = heap wb !! rb ->
  (forall wa1 wb1,
     heap wa1 !! ra = heap wb1 !! rb ->
     fst (ka wa1) = fst (kb wb1) /\
     heap (snd (ka wa1)) !! ra = heap (snd (kb wb1)) !! rb) ->
  fst (bind (draw B ra op) (fun _ => ka) wa)
  = fst (bind (draw B rb op) (fun _ => kb) wb) /\
  heap (snd (bind (draw B ra op) (fun _ => ka) wa)) !! ra
  = heap (snd (bind (draw B rb op) (fun _ => kb) wb)) !! rb.
Proof.
  intros H Hk. unfold bind. destruct (draw_sim ra rb op wa wb H) as [Hv Hh].
  destruct (draw B ra op wa) as [[[]|ea] wa1],
    (draw B rb op wb) as [[[]|eb] wb1]; simpl in *; simplify_eq.
  - now apply Hk.
  - split; [reflexivity|assumption].
Qed.

Lemma annotate_sim ra rb fi wa wb :
  heap wa !! ra = heap wb !! rb ->
  fst (annotate B ra fi wa) = fst (annotate B rb fi wb) /\
  heap (snd (annotate B ra fi wa)) !! ra
  = heap (snd (annotate B rb fi wb)) !! rb.
Proof.
  intros H. unfold annotate, cv2_rectangle, cv2_putText.
  destruct (box fi) as [[[x1 y1] x2] y2].
  apply draw_then_sim; [assumption|]. intros wa1 wb1 H1.
  destruct (negb (String.eqb (make_label fi) "")).
  - apply draw_then_sim; [assumption|]. intros wa2 wb2 H2.
    now apply draw_sim.
  - unfold ret. simpl. auto.
Qed.

Lemma loop_body_sim image ra rb scs i b fd wa wb img :
  ra <> image -> rb <> image ->
  heap wa !! image = Some img -> heap wb !! image = Some img ->
  heap wa !! ra = heap wb !! rb ->
  emotion_model_loaded wa = emotion_model_loaded wb ->
  age_gender_model_loaded wa = age_gender_model_loaded wb ->
  fst (loop_body B image ra scs i b fd wa)
  = fst (loop_body B image rb scs i b fd wb) /\
  heap (snd (loop_body B image ra scs i b fd wa)) !! ra
  = heap (snd (loop_body B image rb scs i b fd wb)) !! rb.
Proof.
  intros Hna Hnb Hia Hib Hr He Ha.
  unfold loop_body, bind, lift, read, ret, index_score.
  destruct (unpack_box b) as [[[[x1 y1] x2] y2]|e]; [|now split].
  rewrite Hia, Hib.
  destruct (too_small (crop img y1 y2 x1 x2)); [now split|].
  destruct (scs !! i) as [s|]; [|now split].
  pose proof (enrich_sim (crop img y1 y2 x1 x2)
                (fresh_record (x1, y1, x2, y2) s) wa wb He Ha) as Hsim.
  unfold fresh_record in Hsim.
  destruct (enrich B (crop img y1 y2 x1 x2) _ wa) as [[fa|ea] wa1] eqn:Ea;
    destruct (enrich B (crop img y1 y2 x1 x2) _ wb) as [[fb|eb] wb1] eqn:Eb;
    simpl in Hsim; simplify_eq;
    apply enrich_spec in Ea as ((Hha & _) & _);
    apply enrich_spec in Eb as ((Hhb & _) & _);
    assert (heap wa1 !! ra = heap wb1 !! rb) as Hr1 by congruence;
    [|now split].
  destruct (annotate_sim ra rb fb wa1 wb1 Hr1) as [Hv Hh].
  destruct (annotate B ra fb wa1) as [[[]|ea] wa2],
    (annotate B rb fb wb1) as [[[]|eb] wb2]; simpl in *; simplify_eq;
    now split.
Qed.

Lemma loop_sim image ra rb scs img :
  ra <> image -> rb <> image ->
  forall bs i fd wa wb,
    heap wa !! image = Some img -> heap wb !! image = Some img ->
    heap wa !! ra = heap wb !! rb ->
    emotion_model_loaded wa = emotion_model_loaded wb ->
    age_gender_model_loaded wa = age_gender_model_loaded wb ->
    fst (loop B image ra scs i bs fd wa) = fst (loop B image rb scs i bs fd wb).
Proof.
  intros Hna Hnb. induction bs as [|b bs IH];
    intros i fd wa wb Hia Hib Hr He Ha; [reflexivity|].
  simpl. unfold bind.
  pose proof (loop_body_sim image ra rb scs i b fd wa wb img
                Hna Hnb Hia Hib Hr He Ha) as [Hsim Hr1].
  destruct (loop_body B image ra scs i b fd wa) as [[fa|ea] wa1] eqn:Eba;
    destruct (loop_body B image rb scs i b fd wb) as [[fb|eb] wb1] eqn:Ebb;
    simpl in Hsim, Hr1; simplify_eq; [|reflexivity].
  apply (loop_body_spec _ _ _ _ _ _ _ _ img) in Eba as (Hia1 & Hea & Haa & _);
    [|assumption..].
  apply (loop_body_spec _ _ _ _ _ _ _ _ img) in Ebb as (Hib1 & Heb & Hab & _);
    [|assumption..].
  apply IH; congruence.
Qed.

(** The flags after the warm-up of a second call are those after the
    warm-up of the first. *)
Lemma warm_up_stable (b : bool) wa wa1 wb wb1 :
  (if b then _ensure_models_loaded B else ret tt) wa = (Ok tt, wa1) ->
  emotion_model_loaded wb = emotion_model_loaded wa1 ->
  age_gender_model_loaded wb = age_gender_model_loaded wa1 ->
  (if b then _ensure_models_loaded B else ret tt) wb = (Ok tt, wb1) ->
  emotion_model_loaded wb1 = emotion_model_loaded wa1 /\
  age_gender_model_loaded wb1 = age_gender_model_loaded wa1.
Proof.
  destruct b; [|unfold ret; intros; simplify_eq; auto].
  destruct (ensure_models_loaded_spec B wa) as (wa2 & Hra & _ & Hfa).
  destruct (ensure_models_loaded_spec B wb) as (wb2 & Hrb & _ & Hfb).
  rewrite Hra, Hrb. intros H1 He Ha H2. simplify_eq.
  destruct (DEEPFACE_AVAILABLE B); [|subst; auto].
  rewrite (Hdet (trace wb ++ [warm_up_emotion]) (trace wa ++ [warm_up_emotion]))
    in Hfb.
  rewrite (Hdet (trace wb) (trace wa)) in Hfb.
  destruct (is_ok (analyze B (trace wa) sample_img [act_emotion])),
    (is_ok (analyze B (trace wa ++ [warm_up_emotion]) sample_img
              [act_age; act_gender]));
    destruct (emotion_model_loaded wa) eqn:Eea,
      (age_gender_model_loaded wa) eqn:Eaa;
    simpl in Hfa;
    try (destruct Hfa as (_ & Hea & Haa)); try subst wa1;
    destruct (emotion_model_loaded wb) eqn:Eeb,
      (age_gender_model_loaded wb) eqn:Eab;
    simpl in Hfb;
    try (destruct Hfb as (_ & Heb & Hab)); try subst wb1;
    simpl in *; split; congruence.
Qed.

End Repeat.

Lemma warm_up_returns B (b : bool) w :
  exists w1,
    (if b then _ensure_models_loaded B else ret tt) w = (Ok tt, w1) /\
    heap w1 = heap w.
Proof.
  destruct b; [|now exists w].
  destruct (ensure_models_loaded_spec B w) as (w1 & Hrun & Hh & _). eauto.
Qed.

(** X12: when the answers of the analysis service do not depend on the
    calls made before, a call that returns can be repeated: a second call on
    the same image returns the same list of face records (same boxes,
    confidences and enrichment fields), whether or not the sub-models were
    ready before the first call. *)
Theorem a_second_call_returns_the_same_faces
    (B : Backend) (self : FaceDetectionModel) (image : loc) (img : ndarray)
    (w w1 : world) (r1 : loc) (faces : list face_info) :
  history_independent B ->
  heap w !! image = Some img ->
  detect_faces B self image w = (Ok (r1, faces), w1) ->
  exists r2 w2, detect_faces B self image w1 = (Ok (r2, faces), w2).
Proof.
  intros Hdet Himg Hrun.
  pose proof Hrun as Hspec.
  apply (detect_faces_spec _ _ _ img) in Hspec as [Himg1 _]; [|assumption].
  rewrite (detect_faces_run _ _ _ _ _ Himg1).
  rewrite (detect_faces_run _ _ _ _ _ Himg) in Hrun.
  destruct (raw_detections B self img) as [raw|e]; [|discriminate].
  destruct (has_detector self); [|simplify_eq; eauto].
  pose proof (copied_lookup _ _ _ Himg) as Hca.
  pose proof (copied_lookup _ _ _ Himg1) as Hcb.
  pose proof (result_loc_fresh _ _ _ Himg) as Hna.
  pose proof (result_loc_fresh _ _ _ Himg1) as Hnb.
  unfold enrich_and_draw in *.
  destruct (warm_up_returns B (DEEPFACE_AVAILABLE B) (copied img w))
    as (wa1 & Hwa & Hha).
  destruct (warm_up_returns B (DEEPFACE_AVAILABLE B) (copied img w1))
    as (wb1 & Hwb & Hhb).
  rewrite (bind_ok _ _ _ _ _ Hwa) in Hrun. rewrite (bind_ok _ _ _ _ _ Hwb).
  apply bind_inv in Hrun as [(fs & wa2 & Hloop & Hret)|(e & _ & ?)];
    [|discriminate].
  unfold ret in Hret. simplify_eq.
  pose proof Hloop as Hflags.
  eapply loop_spec in Hflags as (_ & He & Ha & _);
    [|exact Hna|rewrite Hha; exact Hca].
  destruct (warm_up_stable B Hdet _ (copied img w) wa1 (copied img w1) wb1
              Hwa He Ha Hwb) as [He2 Ha2].
  assert (fst (loop B image (result_loc w1) (map snd (candidates self raw))
                 0 (map fst (candidates self raw)) [] wb1) = Ok faces) as Hfst.
  { rewrite (loop_sim B Hdet image (result_loc w1) (result_loc w)
               (map snd (candidates self raw)) img Hnb Hna
               (map fst (candidates self raw)) 0%nat [] wb1 wa1).
    - now rewrite Hloop.
    - rewrite Hhb. exact Hcb.
    - rewrite Hha. exact Hca.
    - rewrite Hhb, Hha. unfold copied, result_loc. simpl.
      now rewrite !lookup_insert_eq.
    - exact He2.
    - exact Ha2. }
  unfold bind, ret.
  destruct (loop B image (result_loc w1) _ 0 _ [] wb1) as [rb wb2].
  simpl in Hfst. subst rb. eauto.
Qed.

Lemma a_second_call_returns_the_same_faces_witness :
  exists r2 w2,
    detect_faces B_always one_face_model 0%nat (snd learned_run)
    = (Ok (r2, [learned_face]), w2).
Proof.
  apply (a_second_call_returns_the_same_faces B_always one_face_model 0%nat
           (black 200 200) (start_world (black 200 200)) (snd learned_run)
           1%nat [learned_face]).
  - intros t t' a acts. reflexivity.
  - apply start_world_lookup.
  - apply learned_run_eq.
Defined.

(** ** The cascade fallback *)

(** X13: [_detect_faces_opencv] changes nothing in the world.  It raises
    exactly what the grey conversion or [detectMultiScale] raises; otherwise
    it returns one box and one score per rectangle, in order: the box of
    the rectangle [(x, y, w, h)] is [(x, y, x+w, y+h)] and every score is
    1.0. *)
Theorem cascade_fallback_boxes_and_scores
    (B : Backend) (cascade : ndarray -> result (list rect)) (image : loc)
    (img : ndarray) (w w' : world)
    (res : result (list box_t * list pyfloat)) :
  heap w !! image = Some img ->
  _detect_faces_opencv B cascade image w = (res, w') ->
  w' = w /\
  match res with
  | Raise e =>
      cvtColor B img = Raise e \/
      exists gray, cvtColor B img = Ok gray /\ cascade gray = Raise e
  | Ok (bs, ss) =>
      exists gray rects,
        cvtColor B img = Ok gray /\ cascade gray = Ok rects /\
        Forall2 (fun '(x, y, w, h) b =>
                   unpack_box b = Ok (x, y, x + w, y + h)) rects bs /\
        length ss = length rects /\
        Forall (fun s => s = Fin 1) ss
  end.
Proof.
  intros Himg. unfold _detect_faces_opencv, bind, read, lift, ret.
  rewrite Himg.
  destruct (cvtColor B img) as [gray|e]; [|intros H; simplify_eq; auto].
  destruct (cascade gray) as [rects|e] eqn:Ec;
    [|intros H; simplify_eq; split; [reflexivity|right; eauto]].
  intros H. simplify_eq. split; [reflexivity|].
  exists gray, rects. split; [reflexivity|]. split; [assumption|].
  split; [|split].
  - clear. induction rects as [|[[[x y] w0] h] rects IH]; simpl;
      constructor; [reflexivity|assumption].
  - apply length_map.
  - apply List.Forall_forall. intros s Hs.
    apply in_map_iff in Hs as (? & <- & _). reflexivity.
Qed.

Lemma cascade_fallback_boxes_and_scores_witness :
  exists bs ss,
    _detect_faces_opencv B_none (fun _ => Ok [(10, 10, 80, 80)]) 0%nat
      (start_world (black 200 200)) = (Ok (bs, ss), start_world (black 200 200))
    /\ Forall2 (fun '(x, y, w, h) b =>
                   unpack_box b = Ok (x, y, x + w, y + h))
         [(10, 10, 80, 80)] bs
    /\ Forall (fun s => s = Fin 1) ss.
Proof.
  destruct (cascade_fallback_boxes_and_scores
              B_none (fun _ => Ok [(10, 10, 80, 80)]) 0%nat (black 200 200)
              (start_world (black 200 200)) (start_world (black 200 200))
              (Ok ([(CInt 10, CInt 10, CInt 90, CInt 90)], [Fin 1])))
    as (_ & gray & rects & _ & Hc & Hb & _ & Hs).
  - apply start_world_lookup.
  - reflexivity.
  - exists [(CInt 10, CInt 10, CInt 90, CInt 90)], [Fin 1].
    split; [reflexivity|]. inversion Hc; subst rects. split; assumption.
Defined.

(** ** Construction *)



Lemma init_leaves_flags_unset cascade_ctor frcnn_ctor eval w self w0 :
  __init__ cascade_ctor frcnn_ctor eval w = (Ok self, w0) ->
  emotion_model_loaded w0 = false /\ age_gender_model_loaded w0 = false /\
  heap w0 = heap w /\ trace w0 = trace w.
Proof.
  unfold __init__, try_except, with_local, bind, lift, ret, modify.
  destruct cascade_ctor as [c|ec]; simpl; [|destruct (is_Exception ec)];
    try discriminate;
    (destruct frcnn_ctor as [m|ef]; simpl;
     [destruct (eval m) as [[]|ee]; simpl; [|destruct (is_Exception ee)]
     |destruct (is_Exception ef)]);
    simpl; intros H; simplify_eq; auto.
Qed.

(** X15: an object constructed while both detector constructors failed
    degrades to no detection: every call returns a copy of the image and an
    empty list of faces, and logs nothing. *)
Theorem construction_without_detectors_gives_no_faces
    (B : Backend) (ec ef : exn)
    (eval : (ndarray -> result Prediction) -> result unit)
    (w w0 : world) (self : FaceDetectionModel) (image : loc) (img : ndarray) :
  __init__ (Raise ec) (Raise ef) eval w = (Ok self, w0) ->
  heap w0 !! image = Some img ->
  exists r w',
    detect_faces B self image w0 = (Ok (r, []), w') /\
    heap w' !! r = Some img /\
    trace w' = trace w0.
Proof.
  unfold __init__, try_except, with_local, bind, lift, ret, modify. simpl.
  destruct (is_Exception ec); [|discriminate]. simpl.
  destruct (is_Exception ef); [|discriminate]. simpl.
  intros H Himg. simplify_eq.
  rewrite (detect_faces_run _ _ _ _ _ Himg). simpl.
  do 2 eexists. split; [reflexivity|]. split; [apply lookup_insert_eq|].
  reflexivity.
Qed.

Lemma construction_without_detectors_gives_no_faces_witness :
  exists r w',
    detect_faces B_always no_detector 0%nat (start_world (black 200 200))
    = (Ok (r, []), w') /\
    heap w' !! r = Some (black 200 200) /\
    trace w' = trace (start_world (black 200 200)).
Proof.
  apply (construction_without_detectors_gives_no_faces
           B_always (Exn true "cv2.error") (Exn true "RuntimeError")
           (fun _ => Ok tt) (start_world (black 200 200))
           (start_world (black 200 200)) no_detector 0%nat (black 200 200)).
  - reflexivity.
  - reflexivity.
Defined.

(** X16: the first call after construction, with the analysis service and a
    detector, starts with both warm-up calls on the blank probe image,
    before any face is analysed. *)
Theorem first_call_warms_up_both_groups
    (B : Backend)
    (cascade_ctor : result (ndarray -> result (list rect)))
    (frcnn_ctor : result (ndarray -> result Prediction))
    (eval : (ndarray -> result Prediction) -> result unit)
    (w w0 w' : world) (self : FaceDetectionModel) (image : loc)
    (img : ndarray) (r : loc) (faces : list face_info) :
  __init__ cascade_ctor frcnn_ctor eval w = (Ok self, w0) ->
  DEEPFACE_AVAILABLE B = true ->
  has_detector self = true ->
  heap w0 !! image = Some img ->
  detect_faces B self image w0 = (Ok (r, faces), w') ->
  exists rest,
    analyzed (trace w') =
      analyzed (trace w0) ++
      [(sample_img, [act_emotion]); (sample_img, [act_age; act_gender])] ++
      rest.
Proof.
  intros Hinit Hav Hdet Himg Hrun.
  apply init_leaves_flags_unset in Hinit as (He0 & Ha0 & _ & _).
  destruct (detect_faces_facts _ _ _ _ _ _ _ _ Himg Hrun)
    as (w1 & Hwarm & _ & _ & _ & _ & _ & (calls & Hcalls & _) & _).
  rewrite Hdet, Hav in Hwarm. simpl in Hwarm.
  destruct (ensure_models_loaded_spec B (copied img w0)) as (w2 & Hr & _ & Hspec).
  rewrite Hr in Hwarm. simplify_eq.
  rewrite Hav in Hspec. simpl in Hspec. rewrite He0 in Hspec. simpl in Hspec.
  destruct Hspec as (Ht & _).
  exists calls. rewrite Hcalls, Ht, analyzed_app. simpl.
  now rewrite <- app_assoc.
Qed.

Lemma first_call_warms_up_both_groups_witness :
  exists rest,
    analyzed (trace (snd learned_run)) =
      analyzed (trace (start_world (black 200 200))) ++
      [(sample_img, [act_emotion]); (sample_img, [act_age; act_gender])] ++
      rest.
Proof.
  apply (first_call_warms_up_both_groups B_always
           (Raise (Exn true "cv2.error"))
           (Ok (model one_face_model)) (fun _ => Ok tt)
           (start_world (black 200 200)) (start_world (black 200 200))
           (snd learned_run) one_face_model 0%nat (black 200 200) 1%nat
           [learned_face]).
  - reflexivity.
  - reflexivity.
  - reflexivity.
  - apply start_world_lookup.
  - apply learned_run_eq.
Defined.

(** ** Which answers reach the record *)

Section Complete.

Variable B : Backend.
Hypothesis Hdet : history_independent B.

Ltac run_block :=
  repeat match goal with
  | H : (_, _) = (_, _) |- _ => inversion H; subst; clear H
  | H : context [match ?x with _ => _ end] |- _ =>
      let E := fresh "E" in destruct x eqn:E; simpl in H
  end; simplify_eq/=.

Ltac forget_history_in_hyps a :=
  repeat match goal with
  | H : context [analyze B ?t a ?acts] |- _ =>
      lazymatch t with
      | [] => fail
      | _ => rewrite (Hdet t [] a acts) in H
      end
  end.

Lemma enrich_complete a b s w fi wa :
  enrich B a (fresh_record b s) w = (Ok fi, wa) ->
  DEEPFACE_AVAILABLE B = true ->
  (emotion_model_loaded w = true ->
   forall rec rest e,
     analyze B [] a [act_emotion] = Ok (rec :: rest) ->
     a_dominant_emotion rec = Some e ->
     emotion fi = Some e) /\
  (age_gender_model_loaded w = true ->
   emotion_model_loaded w = false \/ emotion_step_completes B a ->
   forall rec rest a0,
     analyze B [] a [act_age; act_gender] = Ok (rec :: rest) ->
     a_age rec = Some a0 ->
     age fi = Some a0 /\ gender fi = a_dominant_gender rec).
Proof.
  unfold emotion_step_completes.
  unfold enrich, with_local, analysis_block, try_except, bind, get, ret, lift,
    modify, in_world, DeepFace_analyze, getitem, fresh_record.
  simpl. intros H Hav. rewrite Hav in H. run_block;
    forget_history_in_hyps a; simpl;
    (split; [intros; simplify_eq/=; congruence|]);
    intros ? Hstep ? ? ? Hag Hage;
    repeat match goal with
           | E : analyze B [] a _ = _ |- _ => rewrite E in *; clear E
           end;
    simplify_eq/=; try (intuition congruence);
    try (split; congruence).
Qed.

End Complete.

Section CompleteCall.

Variable B : Backend.
Variable self : FaceDetectionModel.
Hypothesis Hdet : history_independent B.
Hypothesis Hav : DEEPFACE_AVAILABLE B = true.

Lemma loop_answered image result_img scs img bs w0 faces w' :
  result_img <> image ->
  heap w0 !! image = Some img ->
  loop B image result_img scs 0 bs [] w0 = (Ok faces, w') ->
  Forall (answered B img w0) faces.
Proof.
  intros Hne Himg Hrun.
  destruct (loop_invariant B image result_img scs img
              (fun w new =>
                 emotion_model_loaded w = emotion_model_loaded w0 /\
                 age_gender_model_loaded w = age_gender_model_loaded w0 /\
                 Forall (answered B img w0) new) Hne) with
    (bs := bs) (i := 0%nat) (fd := @nil face_info) (new := @nil face_info)
    (w := w0) (faces := faces) (w' := w') as (new' & -> & _ & _ & HR);
    [|assumption|repeat split; constructor|exact Hrun|exact HR].
  intros w new x1 y1 x2 y2 s fi wa w2 (He & Ha & Hnew) _ Hen Han.
  pose proof (enrich_spec _ _ _ _ _ _ Hen) as ((_ & He1 & Ha1 & _) & Hbox & _).
  destruct (Hbox fi eq_refl) as [Hb _]. simpl in Hb.
  pose proof (annotate_spec B result_img fi wa _ _ Han) as (_ & He2 & Ha2 & _).
  split; [congruence|]. split; [congruence|].
  apply Forall_app. split; [assumption|]. constructor; [|constructor].
  destruct (enrich_complete B Hdet _ _ _ _ _ _ Hen Hav) as [H1 H2].
  unfold answered, crop_box. rewrite Hb, <- He, <- Ha. auto.
Qed.

Lemma detect_faces_answered image img w r faces w' :
  heap w !! image = Some img ->
  detect_faces B self image w = (Ok (r, faces), w') ->
  Forall (answered B img w') faces.
Proof.
  intros Himg. rewrite (detect_faces_run _ _ _ _ _ Himg).
  pose proof (copied_lookup _ _ _ Himg) as Hcopy.
  pose proof (result_loc_fresh _ _ _ Himg) as Hne.
  destruct (raw_detections B self img) as [raw|e]; [|discriminate].
  destruct (has_detector self); [|intros H; simplify_eq; constructor].
  unfold enrich_and_draw. intros Hrun.
  destruct (warm_up_returns B (DEEPFACE_AVAILABLE B) (copied img w))
    as (w1 & Hwarm & Hh).
  rewrite (bind_ok _ _ _ _ _ Hwarm) in Hrun.
  apply bind_inv in Hrun as [(fs & w2 & Hloop & Hret)|(e & _ & ?)];
    [|discriminate].
  unfold ret in Hret. simplify_eq.
  pose proof Hloop as Hflags.
  eapply loop_spec in Hflags as (_ & He & Ha & _);
    [|exact Hne|rewrite Hh; exact Hcopy].
  eapply loop_answered in Hloop; [|exact Hne|rewrite Hh; exact Hcopy].
  eapply Forall_impl; [exact Hloop|]. intros f. unfold answered.
  rewrite He, Ha. auto.
Qed.

End CompleteCall.

(** X17: a face never loses its emotion to a failure of the age and gender
    analysis.  With answers of the service that do not depend on earlier
    calls and the emotion sub-model ready, every returned record carries the
    dominant emotion the service gives for its crop, whatever the age and
    gender call does. *)
Theorem the_emotion_answer_always_reaches_the_record
    (B : Backend) (self : FaceDetectionModel) (image : loc) (img : ndarray)
    (w w' : world) (r : loc) (faces : list face_info) :
  history_independent B ->
  DEEPFACE_AVAILABLE B = true ->
  heap w !! image = Some img ->
  detect_faces B self image w = (Ok (r, faces), w') ->
  emotion_model_loaded w' = true ->
  Forall (fun f =>
            forall rec rest e,
              analyze B [] (crop_box img (box f)) [act_emotion]
                = Ok (rec :: rest) ->
              a_dominant_emotion rec = Some e ->
              emotion f = Some e) faces.
Proof.
  intros Hdet Hav Himg Hrun He.
  pose proof (detect_faces_answered B self Hdet Hav _ _ _ _ _ _ Himg Hrun) as H.
  eapply Forall_impl; [exact H|]. intros f [H1 _]. now apply H1.
Qed.

Lemma the_emotion_answer_always_reaches_the_record_witness :
  Forall (fun f =>
            forall rec rest e,
              analyze B_emotion_only [] (crop_box (black 200 200) (box f))
                [act_emotion] = Ok (rec :: rest) ->
              a_dominant_emotion rec = Some e ->
              emotion f = Some e) [emotion_only_face].
Proof.
  apply (the_emotion_answer_always_reaches_the_record B_emotion_only
           one_face_model 0%nat (black 200 200) (start_world (black 200 200))
           (snd emotion_only_run) 1%nat).
  - intros t t' a acts. reflexivity.
  - reflexivity.
  - apply start_world_lookup.
  - apply emotion_only_run_eq.
  - reflexivity.
Defined.

(** X18: when the age and gender call runs: with answers of the service
    that do not depend on earlier calls and the age and gender sub-model
    ready, a returned record carries the age the service gives for its
    crop, and its gender when the answer has one, provided the emotion
    sub-model is not ready or the emotion step completed on that crop
    without raising. *)
Theorem age_and_gender_follow_a_completed_emotion_step
    (B : Backend) (self : FaceDetectionModel) (image : loc) (img : ndarray)
    (w w' : world) (r : loc) (faces : list face_info) :
  history_independent B ->
  DEEPFACE_AVAILABLE B = true ->
  heap w !! image = Some img ->
  detect_faces B self image w = (Ok (r, faces), w') ->
  age_gender_model_loaded w' = true ->
  Forall (fun f =>
            emotion_model_loaded w' = false \/
            emotion_step_completes B (crop_box img (box f)) ->
            forall rec rest a0,
              analyze B [] (crop_box img (box f)) [act_age; act_gender]
                = Ok (rec :: rest) ->
              a_age rec = Some a0 ->
              age f = Some a0 /\ gender f = a_dominant_gender rec) faces.
Proof.
  intros Hdet Hav Himg Hrun Ha.
  pose proof (detect_faces_answered B self Hdet Hav _ _ _ _ _ _ Himg Hrun) as H.
  eapply Forall_impl; [exact H|]. intros f [_ H2]. now apply H2.
Qed.

Lemma age_and_gender_follow_a_completed_emotion_step_witness :
  Forall (fun f =>
            emotion_model_loaded (snd learned_run) = false \/
            emotion_step_completes B_always
              (crop_box (black 200 200) (box f)) ->
            forall rec rest a0,
              analyze B_always [] (crop_box (black 200 200) (box f))
                [act_age; act_gender] = Ok (rec :: rest) ->
              a_age rec = Some a0 ->
              age f = Some a0 /\ gender f = a_dominant_gender rec)
    [learned_face].
Proof.
  apply (age_and_gender_follow_a_completed_emotion_step B_always
           one_face_model 0%nat (black 200 200) (start_world (black 200 200))
           (snd learned_run) 1%nat).
  - intros t t' a acts. reflexivity.
  - reflexivity.
  - apply start_world_lookup.
  - apply learned_run_eq.
  - reflexivity.
Defined.

(** ** When the call returns *)



Section Returns.

Variable B : Backend.
Hypothesis Hexn :
  forall t a acts e, analyze B t a acts = Raise e -> is_Exception e = true.







End Returns.




